(** * OlympiQ charts: a shallow embedding of [MedalLineChart.jsx]

    The source file holds two React components, [MedalLineChart] (a
    parallel-coordinates line chart of medal counts) and [GDPStreamGraph]
    (a stacked stream graph of GDP per capita).  Both fetch rows through a
    query hook, reshape them, and hand them to d3.

    The embedding keeps the structure of the source:
    - [Js]   : the array and [Set] operations the components call;
    - [D3]   : the d3 calls they make (ordinal colour scales, [d3.index],
               [d3.stack] with the wiggle offset and the inside-out order),
               written after the published d3 sources;
    - [MedalLineChart], [GDPStreamGraph] : the components themselves, as
               state machines over React state, effect dependencies and the
               DOM node each one draws into;
    - [Scale], [Geometry] : [d3.extent], the linear and point scales, and
               the pixel positions they give to the points of the line
               chart and to the bounds of the stream graph's bands.

    Numbers: medal counts and years are integers ([Z]); GDP values, the
    stack offsets and the positions are exact rationals ([Q]), so rounding
    of JavaScript doubles is not modelled.  A drawn path carries the data
    points it was generated from; its positions are computed beside it.
    The time scale of the stream graph and the ticks of the axes are not
    modelled. *)

From Stdlib Require Import ZArith QArith Qround Lia Lqa Sorted.
From Stdlib Require OrdersEx.
From stdpp Require Import base list strings.

Set Default Proof Using "Type".

(* ===================================================================== *)
(** * JavaScript arrays and sets *)
(* ===================================================================== *)

Module Js.

Section Generic.
Context {A : Type} `{EqDecision A}.

(** [xs.includes(x)] *)
Definition includes (xs : list A) (x : A) : bool := bool_decide (x ∈ xs).

(** [xs.indexOf(x)]; [None] stands for [-1]. *)
Fixpoint indexOf (x : A) (xs : list A) : option nat :=
  match xs with
  | [] => None
  | y :: ys => if decide (x = y) then Some 0 else S <$> indexOf x ys
  end.

(** [set.add(x)] on an insertion-ordered [Set]. *)
Definition Set_add (s : list A) (x : A) : list A :=
  if decide (x ∈ s) then s else s ++ [x].

(** [Array.from(new Set(xs))], also [[...new Set(xs)]]: the members in
    insertion order. *)
Definition Set_from (xs : list A) : list A := fold_left Set_add xs [].

(** [xs.filter((value, index, self) => self.indexOf(value) === index)] *)
Definition filter_first_index (xs : list A) : list A :=
  omap (λ p : nat * A, if decide (indexOf p.2 xs = Some p.1) then Some p.2 else None)
       (imap pair xs).
End Generic.

Section Sort.
Context {A : Type}.

(** [xs.sort(cmp)] is stable: an element moves behind a later one only
    when the comparator is positive on the pair. *)
Fixpoint insert (cmp : A → A → Z) (x : A) (xs : list A) : list A :=
  match xs with
  | [] => [x]
  | y :: ys => if (0 <? cmp x y)%Z then y :: insert cmp x ys else x :: xs
  end.

Definition sort (cmp : A → A → Z) (xs : list A) : list A :=
  foldr (insert cmp) [] xs.
End Sort.

End Js.

(* ===================================================================== *)
(** * The d3 calls of the two components *)
(* ===================================================================== *)

(** d3 is a dependency of the repository, not part of it.  The functions
    below follow d3 7 (d3-array 3, d3-scale 4, d3-shape 3), the first line
    of releases in which [d3.index] keys a [Date] by its time value. *)

Module D3.

(** [d3.schemeCategory10] and [d3.schemeTableau10]. *)
Definition schemeCategory10 : list string :=
  ["#1f77b4"; "#ff7f0e"; "#2ca02c"; "#d62728"; "#9467bd";
   "#8c564b"; "#e377c2"; "#7f7f7f"; "#bcbd22"; "#17becf"].

Definition schemeTableau10 : list string :=
  ["#4e79a7"; "#f28e2c"; "#e15759"; "#76b7b2"; "#59a14f";
   "#edc949"; "#af7aa1"; "#ff9da7"; "#9c755f"; "#bab0ab"].

(** [d3.ascending(a, b)] on numbers. *)
Definition ascending (a b : Z) : Z :=
  if (a <? b)%Z then (-1)%Z else if (b <? a)%Z then 1%Z else 0%Z.

(** ** [d3.scaleOrdinal]

    The scale owns a domain (an array backed by an index map) and a range.
    Calling it on a key that is not in the domain appends the key (the
    "implicit" unknown), so a scale is threaded through its calls. *)
Record Ordinal := { domain : list string; range : list string }.

(** [d3.scaleOrdinal(range)] and [d3.scaleOrdinal()]. *)
Definition scaleOrdinal (r : list string) : Ordinal := {| domain := []; range := r |}.

(** [scale.domain(keys)]: keys already present are skipped. *)
Definition set_domain (keys : list string) (s : Ordinal) : Ordinal :=
  {| domain := Js.Set_from keys; range := range s |}.

(** [scale.range(r)] *)
Definition set_range (r : list string) (s : Ordinal) : Ordinal :=
  {| domain := domain s; range := r |}.

(** [scale(d)]: the colour is [range[i % range.length]], [None] when that
    is [undefined]. *)
Definition call (s : Ordinal) (d : string) : Ordinal * option string :=
  match Js.indexOf d (domain s) with
  | Some i => (s, range s !! (i mod length (range s)))
  | None =>
      ({| domain := domain s ++ [d]; range := range s |},
       range s !! (length (domain s) mod length (range s)))
  end.

(** The scale called on each key of an array in turn, as
    [selection.attr(name, d => color(d))] does over the joined nodes. *)
Fixpoint call_all (s : Ordinal) (ds : list string) : Ordinal * list (option string) :=
  match ds with
  | [] => (s, [])
  | d :: ds' =>
      let '(s1, c) := call s d in
      let '(s2, cs) := call_all s1 ds' in
      (s2, c :: cs)
  end.

(** ** [d3.index(values, key1, key2)]

    A nested insertion-ordered map, built as d3's [nest] does: group by the
    first key, regroup each group by the second key, and demand that every
    leaf holds one value ([None] is the thrown "duplicate key").  Keys are
    interned by value, so two [Date] objects for one instant are one key. *)
Section Index.
Context {V K1 K2 : Type} `{EqDecision K1} `{EqDecision K2}.

Fixpoint group_push {K : Type} `{EqDecision K} (k : K) (v : V)
    (groups : list (K * list V)) : list (K * list V) :=
  match groups with
  | [] => [(k, [v])]
  | g :: groups' =>
      if decide (k = g.1) then (g.1, g.2 ++ [v]) :: groups'
      else g :: group_push k v groups'
  end.

Definition group {K : Type} `{EqDecision K} (keyof : V → K) (values : list V)
    : list (K * list V) :=
  fold_left (λ groups v, group_push (keyof v) v groups) values [].


Definition unique (values : list V) : option V :=
  match values with [v] => Some v | _ => None end.

Definition index (values : list V) (key1 : V → K1) (key2 : V → K2)
    : option (list (K1 * list (K2 * V))) :=
  mapM (λ g1 : K1 * list V,
          pair g1.1 <$> mapM (λ g2 : K2 * list V, pair g2.1 <$> unique g2.2)
                             (group key2 g1.2))
       (group key1 values).

(** [map.get(key)] *)
Fixpoint get {K : Type} `{EqDecision K} (key : K) (m : list (K * V)) : option V :=
  match m with
  | [] => None
  | e :: m' => if decide (key = e.1) then Some e.2 else get key m'
  end.
End Index.

(** ** [d3.stack] *)

(** [x || 0] on a number. *)
Definition or0 (x : Q) : Q := if Qeq_bool x 0 then 0%Q else x.

Definition Qlt_bool (a b : Q) : bool := negb (Qle_bool b a).

(** A stacked point [[y0, y1]]; a series is one point per datum and the
    stack holds one series per key. *)
Abbreviation Point := (Q * Q)%type.
Abbreviation Matrix := (list (list Point)).

Definition row (sz : Matrix) (i : nat) : list Point := default [] (sz !! i).
Definition at_ (sz : Matrix) (i j : nat) : Point := default (0%Q, 0%Q) (row sz i !! j).

(** Every series holds one point per datum. *)
Definition rect (m : nat) (sz : Matrix) : Prop := Forall (λ r, length r = m) sz.

(** [order[i]] *)
Definition ord (order : list nat) (i : nat) : nat := default 0 (order !! i).

(** [sum(series)] of d3-shape/order/ascending.js. *)
Definition sum (series : list Point) : Q :=
  fold_left (λ s p, if Qeq_bool p.2 0 then s else (s + p.2)%Q) series 0%Q.

(** [peak(series)] of d3-shape/order/appearance.js: the index of the first
    maximum; the running maximum starts at [-Infinity] ([None]). *)
Definition peak (series : list Point) : nat :=
  (fold_left
     (λ (acc : nat * nat * option Q) p,
        let '(i, j, vj) := acc in
        if match vj with None => true | Some v => Qlt_bool v p.2 end
        then (S i, i, Some p.2) else (S i, j, vj))
     series (0, 0, None)).1.2.

(** [d3.stackOrderNone] *)
Definition stackOrderNone (series : Matrix) : list nat := seq 0 (length series).

(** [d3.stackOrderAppearance] *)
Definition stackOrderAppearance (series : Matrix) : list nat :=
  let peaks := map peak series in
  Js.sort (λ a b : nat,
             (Z.of_nat (default 0%nat (peaks !! a)) - Z.of_nat (default 0%nat (peaks !! b)))%Z)
          (stackOrderNone series).

(** [d3.stackOrderInsideOut] *)
Definition stackOrderInsideOut (series : Matrix) : list nat :=
  let sums := map sum series in
  let order := stackOrderAppearance series in
  let '(_, _, tops, bottoms) :=
    fold_left
      (λ (acc : Q * Q * list nat * list nat) j,
         let '(top, bottom, tops, bottoms) := acc in
         if Qlt_bool top bottom
         then ((top + default 0%Q (sums !! j))%Q, bottom, tops ++ [j], bottoms)
         else (top, (bottom + default 0%Q (sums !! j))%Q, tops, bottoms ++ [j]))
      order (0%Q, 0%Q, [], []) in
  reverse bottoms ++ tops.

(** [s1[j][1] += s1[j][0] = s0[j][1]] for every [j]: the series [s1] is
    put on top of [s0].  (d3 falls back to [s0[j][0]] when [s0[j][1]] is
    [NaN]; exact rationals have no [NaN].) *)
Definition stack_onto (s0 s1 : list Point) : list Point :=
  zip_with (λ p0 p1 : Point, (p0.2, (p1.2 + p0.2)%Q)) s0 s1.

Fixpoint none_loop (rest : list nat) (prev : nat) (sz : Matrix) : Matrix :=
  match rest with
  | [] => sz
  | i :: rest' => none_loop rest' i (<[i := stack_onto (row sz prev) (row sz i)]> sz)
  end.

(** [d3.stackOffsetNone(series, order)] *)
Definition stackOffsetNone (sz : Matrix) (order : list nat) : Matrix :=
  if (1 <? length sz)%nat then
    match order with
    | o0 :: rest => none_loop rest o0 sz
    | [] => sz
    end
  else sz.

(** [sk[j][1] || 0] *)
Definition y1 (sz : Matrix) (i j : nat) : Q := or0 (at_ sz i j).2.

(** The innermost loop of the wiggle offset, over [k < i]. *)
Definition wiggle_s3 (sz : Matrix) (order : list nat) (i j : nat) : Q :=
  fold_left
    (λ s3 k, (s3 + (y1 sz (ord order k) j - y1 sz (ord order k) (j - 1)))%Q)
    (seq 0 i)
    ((y1 sz (ord order i) j - y1 sz (ord order i) (j - 1)) / 2)%Q.

(** The loop over [i < n], giving [(s1, s2)]. *)
Definition wiggle_sums (sz : Matrix) (order : list nat) (n j : nat) : Q * Q :=
  fold_left
    (λ (acc : Q * Q) i,
       let sij0 := y1 sz (ord order i) j in
       ((acc.1 + sij0)%Q, (acc.2 + wiggle_s3 sz order i j * sij0)%Q))
    (seq 0 n) (0%Q, 0%Q).

(** [s0[j][1] += s0[j][0] = y] *)
Definition rebase (y : Q) (p : Point) : Point := (y, (p.2 + y)%Q).

Definition rebase_at (sz : Matrix) (i j : nat) (y : Q) : Matrix :=
  alter (alter (rebase y) j) i sz.

(** The loop over [j = 1 .. m-1], giving the stack and the last baseline. *)
Fixpoint wiggle_loop (js : list nat) (sz : Matrix) (order : list nat) (n : nat)
    (y : Q) : Matrix * Q :=
  match js with
  | [] => (sz, y)
  | j :: js' =>
      let '(s1, s2) := wiggle_sums sz order n j in
      let sz' := rebase_at sz (ord order 0) (j - 1) y in
      let y' := if Qeq_bool s1 0 then y else (y - s2 / s1)%Q in
      wiggle_loop js' sz' order n y'
  end.

(** [d3.stackOffsetWiggle(series, order)] *)
Definition stackOffsetWiggle (sz : Matrix) (order : list nat) : Matrix :=
  let n := length sz in
  let m := length (row sz (ord order 0)) in
  if (0 <? n)%nat && (0 <? m)%nat then
    let '(sz1, y) := wiggle_loop (seq 1 (m - 1)) sz order n 0%Q in
    stackOffsetNone (rebase_at sz1 (ord order 0) (m - 1) y) order
  else sz.

(** A returned series: its key, its position in the stacking order and its
    points. *)
Module Series.
Record t := mk { key : string; index : nat; points : list Point }.
End Series.

(** The matrix [sz] that [stack(data)] fills before ordering: series [i],
    datum [j] holds [[0, +value(d_j, key_i)]]. *)
Definition stack_init {D : Type} (keys : list string) (value : D → string → Q)
    (data : list D) : Matrix :=
  map (λ k, map (λ d, (0%Q, value d k)) data) keys.

(** [d3.stack().keys(keys).offset(d3.stackOffsetWiggle)
      .order(d3.stackOrderInsideOut).value(value)(data)] *)
Definition stack {D : Type} (keys : list string) (value : D → string → Q)
    (data : list D) : list Series.t :=
  let sz := stack_init keys value data in
  let oz := stackOrderInsideOut sz in
  let out := stackOffsetWiggle sz oz in
  imap (λ i (p : string * list Point),
          Series.mk p.1 (default 0%nat (Js.indexOf i oz)) p.2)
       (zip keys out).

(** The bounds [d[0]] and [d[1]] of a series at datum [j], as the area
    generator reads them, and the height of the band between them. *)
Definition lower (s : Series.t) (j : nat) : Q :=
  (default (0%Q, 0%Q) (Series.points s !! j)).1.
Definition upper (s : Series.t) (j : nat) : Q :=
  (default (0%Q, 0%Q) (Series.points s !! j)).2.
Definition height (s : Series.t) (j : nat) : Q := (upper s j - lower s j)%Q.


(** [d3.min(values)] and [d3.max(values)]; [None] is [undefined]. *)
Definition min (values : list Q) : option Q :=
  fold_left (λ m x, match m with
                    | None => Some x
                    | Some v => if Qlt_bool x v then Some x else m
                    end) values None.

Definition max (values : list Q) : option Q :=
  fold_left (λ m x, match m with
                    | None => Some x
                    | Some v => if Qlt_bool v x then Some x else m
                    end) values None.

(** [series.flat(2)] *)
Definition flat2 (series : list Series.t) : list Q :=
  series ≫= λ s, Series.points s ≫= λ p : Point, [p.1; p.2].

End D3.

(* ===================================================================== *)
(** * React plumbing shared by the two components *)
(* ===================================================================== *)

(** An array held in React state.  Effects compare their dependencies with
    [Object.is], that is by reference, so an array carries the reference
    it was allocated at. *)
Record Array (A : Type) := { ref : nat; items : list A }.
Arguments ref {A} _.
Arguments items {A} _.

(** What a query hook returns on a render.  [data] is [None] while it is
    [undefined]; its reference is chosen by the data layer. *)
Record Query (A : Type) :=
  { data : option (Array A); isLoading : bool; isError : bool }.
Arguments data {A} _.
Arguments isLoading {A} _.
Arguments isError {A} _.

(** An effect runs when it has never run or a dependency changed. *)
Definition changed {D : Type} `{EqDecision D} (seen : option D) (now : D) : bool :=
  bool_decide (seen ≠ Some now).

(* ===================================================================== *)
(** * MedalLineChart *)
(* ===================================================================== *)

Module MedalLineChart.

(** A row of the medals feed. *)
Module Row.
Record t := mk { Year : Z; Country : string; Gold : Z; Silver : Z; Bronze : Z }.
End Row.

(** A row of [filteredData]: [{ name, Gold, Silver, Bronze }]. *)
Module Point.
Record t := mk { name : string; Gold : Z; Silver : Z; Bronze : Z }.

(** [d[key]] for a metric key; [None] is [undefined]. *)
Definition get (d : t) (key : string) : option Z :=
  if decide (key = "Gold") then Some (Gold d)
  else if decide (key = "Silver") then Some (Silver d)
  else if decide (key = "Bronze") then Some (Bronze d)
  else None.
End Point.

(** [selectedYear]: [null] at first, then [years[0]] (which is [undefined]
    for an empty feed) or [Number(e.target.value)]. *)
Inductive YearVal := YNull | YUndefined | YNum (y : Z).

#[global] Instance YearVal_eq_dec : EqDecision YearVal.
Proof. solve_decision. Defined.

(** Truthiness of [selectedYear] in [if (medalsData && selectedYear)]. *)
Definition truthy (y : YearVal) : option Z :=
  match y with
  | YNum y => if decide (y = 0%Z) then None else Some y
  | _ => None
  end.

(** [[...new Set(medalsData.map(d => d.Year))].sort((a, b) => b - a)] *)
Definition yearsOf (medalsData : list Row.t) : list Z :=
  Js.sort (λ a b, (b - a)%Z) (Js.Set_from (map Row.Year medalsData)).

(** [years[0]] *)
Definition latestYear (medalsData : list Row.t) : YearVal :=
  match yearsOf medalsData with
  | y :: _ => YNum y
  | [] => YUndefined
  end.

Definition uniqueKeys : list string := ["Gold"; "Silver"; "Bronze"].

Definition pivot (d : Row.t) : Point.t :=
  Point.mk (Row.Country d) (Row.Gold d) (Row.Silver d) (Row.Bronze d).

(** The body of the second effect (lines 22-34): year filter, country
    filter when [appliedCountries] is non-empty, then the pivot. *)
Definition transform (medalsData : list Row.t) (selectedYear : Z)
    (appliedCountries : list string) : list Point.t :=
  let yearData := filter (λ d, Row.Year d = selectedYear) medalsData in
  let yearData :=
    if (0 <? length appliedCountries)%nat
    then filter (λ d, Row.Country d ∈ appliedCountries) yearData
    else yearData in
  map pivot yearData.

(** ** What the third effect draws *)

Record Path :=
  { stroke : option string; d : list (string * option Z); title : string }.

Record LegendItem := { row : nat; fill : option string; label : string }.

Record Svg :=
  { width : Z; height : Z;
    paths : list Path; axes : list string; legend : list LegendItem }.

(** The chart node [#d3-chart]: absent from the document, or present with
    its content ([None] after [.html('')] and on a fresh mount). *)
Inductive Container := NotMounted | Mounted (content : option Svg).

(** Line 82: the paths are joined to the rows in ascending order of Gold. *)
Definition drawOrder (filteredData : list Point.t) : list Point.t :=
  Js.sort (λ a b, D3.ascending (Point.Gold a) (Point.Gold b)) filteredData.

(** Lines 44-137 for non-empty [filteredData] and [keys]. *)
Definition render (filteredData : list Point.t) (keys : list string) : Svg :=
  let color := D3.scaleOrdinal D3.schemeCategory10 in
  let sorted := drawOrder filteredData in
  let '(color, strokes) := D3.call_all color (map Point.name sorted) in
  let path d s :=
    {| stroke := s; d := map (λ key, (key, Point.get d key)) keys;
       title := Point.name d |} in
  let names := Js.filter_first_index (map Point.name filteredData) in
  let '(_, fills) := D3.call_all color names in
  {| width := 960 + 150;
     height := Z.of_nat (length keys) * 120;
     paths := zip_with path sorted strokes;
     axes := keys;
     legend := imap (λ i p, {| row := i; fill := p.2; label := p.1 |})
                    (zip names fills) |}.

(** ** Component state *)

Record State :=
  { query : Query Row.t;
    (* useState *)
    selectedYear : YearVal;
    selectedCountries : Array string;
    appliedCountries : Array string;
    filteredData : Array Point.t;
    keys : Array string;
    (* the dependencies each effect last ran with *)
    deps1 : option (option nat);
    deps2 : option (option nat * YearVal * nat);
    deps3 : option (nat * nat);
    (* the DOM node and the next free array reference *)
    chart : Container;
    heap : nat;
    (* ghost counters: how often the transform (effect 2) and the
       layout-and-draw code (effect 3) got past their guards *)
    transforms : nat;
    renders : nat }.

(** The component before its first render with hook result [q]. *)
Definition init (q : Query Row.t) : State :=
  {| query := q;
     selectedYear := YNull;
     selectedCountries := {| ref := 0; items := [] |};
     appliedCountries := {| ref := 1; items := [] |};
     filteredData := {| ref := 2; items := [] |};
     keys := {| ref := 3; items := [] |};
     deps1 := None; deps2 := None; deps3 := None;
     chart := NotMounted;
     heap := 4;
     transforms := 0;
     renders := 0 |}.

(** ** The returned JSX (lines 140-193) *)

Inductive View :=
  | VMessage (text : string)
  | VControls (availableYears : list Z) (availableCountries : list string)
  | VThrow.

(** [.sort()] without a comparator orders strings by code unit;
    [String.compare] does so on the bytes of the name. *)
Definition compareStrings (a b : string) : Z :=
  match String.compare a b with Lt => (-1)%Z | Eq => 0%Z | Gt => 1%Z end.

Definition view (s : State) : View :=
  if isLoading (query s) then VMessage "Loading..."
  else if isError (query s) then VMessage "Failed to load data."
  else match data (query s) with
       | None => VThrow (* medalsData.map on undefined *)
       | Some medalsData =>
           VControls
             (yearsOf (items medalsData))
             (Js.sort compareStrings
                (Js.Set_from
                   (map Row.Country
                      (filter (λ d, YNum (Row.Year d) = selectedYear s)
                              (items medalsData)))))
       end.

(** React commits the view: the chart node exists exactly while the
    controls are shown, and a newly mounted node is empty. *)
Definition commit (v : View) (c : Container) : Container :=
  match v with
  | VControls _ _ => match c with NotMounted => Mounted None | _ => c end
  | _ => NotMounted
  end.

Definition dataRef (s : State) : option nat := ref <$> data (query s).

(** The dependency arrays of the second and third effect, as the render
    of state [s] evaluates them. *)
Definition now2 (s : State) : option nat * YearVal * nat :=
  (dataRef s, selectedYear s, ref (appliedCountries s)).
Definition now3 (s : State) : nat * nat :=
  (ref (filteredData s), ref (keys s)).

(** ** Effects

    Each effect reads the values captured by the render ([snap]) and
    records its updates in [acc]. *)

(** Lines 13-18. *)
Definition effect1 (snap acc : State) : State :=
  if changed (deps1 snap) (dataRef snap) then
    {| query := query acc;
       selectedYear :=
         match data (query snap) with
         | Some medalsData => latestYear (items medalsData)
         | None => selectedYear acc
         end;
       selectedCountries := selectedCountries acc;
       appliedCountries := appliedCountries acc;
       filteredData := filteredData acc;
       keys := keys acc;
       deps1 := Some (dataRef snap);
       deps2 := deps2 acc; deps3 := deps3 acc;
       chart := chart acc; heap := heap acc;
       transforms := transforms acc; renders := renders acc |}
  else acc.

(** Lines 20-39. *)
Definition effect2 (snap acc : State) : State :=
  let now := now2 snap in
  if changed (deps2 snap) now then
    match data (query snap), truthy (selectedYear snap) with
    | Some medalsData, Some y =>
        {| query := query acc;
           selectedYear := selectedYear acc;
           selectedCountries := selectedCountries acc;
           appliedCountries := appliedCountries acc;
           filteredData :=
             {| ref := heap acc;
                items := transform (items medalsData) y
                                   (items (appliedCountries snap)) |};
           keys := {| ref := S (heap acc); items := uniqueKeys |};
           deps1 := deps1 acc; deps2 := Some now; deps3 := deps3 acc;
           chart := chart acc; heap := S (S (heap acc));
           transforms := S (transforms acc); renders := renders acc |}
    | _, _ =>
        {| query := query acc;
           selectedYear := selectedYear acc;
           selectedCountries := selectedCountries acc;
           appliedCountries := appliedCountries acc;
           filteredData := filteredData acc;
           keys := keys acc;
           deps1 := deps1 acc; deps2 := Some now; deps3 := deps3 acc;
           chart := chart acc; heap := heap acc;
           transforms := transforms acc; renders := renders acc |}
    end
  else acc.

(** [d3.select('#d3-chart').html('').append('svg')...]: nothing happens
    when the selection is empty. *)
Definition draw (svg : Svg) (c : Container) : Container :=
  match c with
  | NotMounted => NotMounted
  | Mounted _ => Mounted (Some svg)
  end.

(** Lines 41-138. *)
Definition effect3 (snap acc : State) : State :=
  let now := now3 snap in
  if changed (deps3 snap) now then
    let guard :=
      orb (bool_decide (length (items (filteredData snap)) = 0))
          (bool_decide (length (items (keys snap)) = 0)) in
    {| query := query acc;
       selectedYear := selectedYear acc;
       selectedCountries := selectedCountries acc;
       appliedCountries := appliedCountries acc;
       filteredData := filteredData acc;
       keys := keys acc;
       deps1 := deps1 acc; deps2 := deps2 acc; deps3 := Some now;
       chart :=
         if guard then chart acc
         else draw (render (items (filteredData snap)) (items (keys snap)))
                   (chart acc);
       heap := heap acc;
       transforms := transforms acc;
       renders := if guard then renders acc else S (renders acc) |}
  else acc.

Definition set_chart (c : Container) (s : State) : State :=
  {| query := query s;
     selectedYear := selectedYear s;
     selectedCountries := selectedCountries s;
     appliedCountries := appliedCountries s;
     filteredData := filteredData s;
     keys := keys s;
     deps1 := deps1 s; deps2 := deps2 s; deps3 := deps3 s;
     chart := c; heap := heap s;
     transforms := transforms s; renders := renders s |}.

(** One render and commit: the view is computed (and may throw), the DOM
    is updated, then the effects whose dependencies changed run in source
    order with the values of this render. *)
Definition round (s : State) : option State :=
  match view s with
  | VThrow => None
  | v =>
      let acc := set_chart (commit v (chart s)) s in
      Some (effect3 s (effect2 s (effect1 s acc)))
  end.

(** A state update made by an effect schedules another render.  Effect 1
    can feed effect 2 and effect 2 can feed effect 3, so three rounds reach
    a state in which no effect is pending ([settle_stable] below). *)
Definition settle (s : State) : option State :=
  s1 ← round s; s2 ← round s1; round s2.

(** No effect is pending: a further render changes nothing. *)
Definition stable (s : State) : Prop := round s = Some s.

(** The references held in state were allocated before [heap]. *)
Definition fresh (s : State) : Prop :=
  ref (selectedCountries s) < heap s ∧ ref (appliedCountries s) < heap s.

(** ** Event handlers *)

Inductive Event :=
  | Fetch (q : Query Row.t)              (* the hook returns a new result *)
  | ChangeYear (y : Z)                   (* year <select> onChange *)
  | EditCountries (selected : list string) (* country <select multiple> onChange *)
  | Apply.                               (* the Apply button *)

Definition handle (s : State) (e : Event) : State :=
  match e, chart s with
  | Fetch q, _ =>
      {| query := q;
         selectedYear := selectedYear s;
         selectedCountries := selectedCountries s;
         appliedCountries := appliedCountries s;
         filteredData := filteredData s;
         keys := keys s;
         deps1 := deps1 s; deps2 := deps2 s; deps3 := deps3 s;
         chart := chart s; heap := heap s;
         transforms := transforms s; renders := renders s |}
  | _, NotMounted => s (* the controls are not on the page *)
  | ChangeYear y, _ =>
      {| query := query s;
         selectedYear := YNum y;
         selectedCountries := selectedCountries s;
         appliedCountries := {| ref := heap s; items := [] |};
         filteredData := filteredData s;
         keys := keys s;
         deps1 := deps1 s; deps2 := deps2 s; deps3 := deps3 s;
         chart := chart s; heap := S (heap s);
         transforms := transforms s; renders := renders s |}
  | EditCountries selected, _ =>
      {| query := query s;
         selectedYear := selectedYear s;
         selectedCountries := {| ref := heap s; items := selected |};
         appliedCountries := appliedCountries s;
         filteredData := filteredData s;
         keys := keys s;
         deps1 := deps1 s; deps2 := deps2 s; deps3 := deps3 s;
         chart := chart s; heap := S (heap s);
         transforms := transforms s; renders := renders s |}
  | Apply, _ =>
      {| query := query s;
         selectedYear := selectedYear s;
         selectedCountries := selectedCountries s;
         appliedCountries := selectedCountries s;
         filteredData := filteredData s;
         keys := keys s;
         deps1 := deps1 s; deps2 := deps2 s; deps3 := deps3 s;
         chart := chart s; heap := heap s;
         transforms := transforms s; renders := renders s |}
  end.

Definition step (s : State) (e : Event) : option State := settle (handle s e).

(** The component mounted with hook result [q], then a sequence of events.
    [None]: a render threw and React removed the component. *)
Definition mount (q : Query Row.t) : option State := settle (init q).

Definition run (q : Query Row.t) (es : list Event) : option State :=
  foldl (λ s e, s ≫= λ s, step s e) (mount q) es.

End MedalLineChart.



(* ===================================================================== *)
(** * GDPStreamGraph *)
(* ===================================================================== *)

Module GDPStreamGraph.

(** A row of the GDP feed.  ["GDP per capita"] is read through unary plus:
    [None] stands for a value that is missing or not numeric ([NaN]). *)
Module Row.
Record t := mk { Year : Z; Country : string; GDP_per_capita : option Q }.
End Row.

(** A row of [parsedData].  A [Date] is keyed by its time value; it is
    represented by the calendar year it falls in. *)
Module Parsed.
Record t := mk { year : Z; country : string; gdpPerCapita : Q }.
End Parsed.

(** [new Date(y, 0, 1)]: a year from 0 to 99 means 1900 + y. *)
Definition newDate (y : Z) : Z :=
  if (0 <=? y)%Z && (y <=? 99)%Z then (1900 + y)%Z else y.

(** Lines 218-222. *)
Definition parse (d : Row.t) : Parsed.t :=
  Parsed.mk (newDate (Row.Year d)) (Row.Country d)
            (D3.or0 (default 0%Q (Row.GDP_per_capita d))).

(** Line 232: the selected countries, or the first ten of the feed. *)
Definition countriesOf (parsedData : list Parsed.t) (selectedCountries : list string)
    : list string :=
  if (0 <? length selectedCountries)%nat then selectedCountries
  else take 10 (Js.Set_from (map Parsed.country parsedData)).

(** Line 240: [([, countryData], key) => countryData.get(key)?.gdpPerCapita || 0] *)
Definition value (entry : Z * list (string * Parsed.t)) (key : string) : Q :=
  match D3.get key entry.2 with
  | Some d => D3.or0 (Parsed.gdpPerCapita d)
  | None => 0%Q
  end.

(** [d3.extent(years)] on the sorted years. *)
Definition extent (years : list Z) : option Z * option Z := (head years, last years).

(** ** What the effect draws *)

Record Area :=
  { fill : option string; title : string; band : list (Z * D3.Point) }.

Record LegendItem := { row : nat; swatch : option string; label : string }.

Record Svg :=
  { xDomain : option Z * option Z;
    yDomain : option Q * option Q;
    areas : list Area;
    legend : list LegendItem }.

Inductive Container := NotMounted | Mounted (content : option Svg).

(** Lines 225-229; [None] when [d3.index] throws. *)
Definition dataByYearAndCountry (gdpData : list Row.t)
    : option (list (Z * list (string * Parsed.t))) :=
  D3.index (map parse gdpData) Parsed.year Parsed.country.

(** Lines 236-242: the value of [series]. *)
Definition seriesOf (gdpData : list Row.t) (selectedCountries : list string)
    : option (list D3.Series.t) :=
  dataByYearAndCountry ← dataByYearAndCountry gdpData;
  Some (D3.stack (countriesOf (map parse gdpData) selectedCountries) value
                 dataByYearAndCountry).

(** Lines 217-324; [None] when [d3.index] throws. *)
Definition render (gdpData : list Row.t) (selectedCountries : list string)
    : option Svg :=
  let parsedData := map parse gdpData in
  dataByYearAndCountry ← dataByYearAndCountry gdpData;
  let countries := countriesOf parsedData selectedCountries in
  (* [new Set] keeps every [Date] object: equal dates are distinct objects *)
  let years := Js.sort (λ a b, D3.ascending a b) (map Parsed.year parsedData) in
  let series := D3.stack countries value dataByYearAndCountry in
  let color :=
    D3.set_range D3.schemeTableau10 (D3.set_domain countries (D3.scaleOrdinal [])) in
  let '(color, fills) := D3.call_all color (map D3.Series.key series) in
  let area (s : D3.Series.t) (c : option string) :=
    {| fill := c; title := D3.Series.key s;
       band := zip (map fst dataByYearAndCountry) (D3.Series.points s) |} in
  let '(_, swatches) := D3.call_all color countries in
  Some {| xDomain := extent years;
          yDomain := (D3.min (D3.flat2 series), D3.max (D3.flat2 series));
          areas := zip_with area series fills;
          legend := imap (λ i (p : string * option string),
                            {| row := i; swatch := p.2; label := p.1 |})
                         (zip countries swatches) |}.

(** ** Component state *)

Record State :=
  { query : Query Row.t;
    selectedCountries : Array string;
    deps : option (option nat * nat);
    svgRef : Container;
    heap : nat;
    (* ghost counter: how often the effect got past its guard *)
    renders : nat }.

Definition init (q : Query Row.t) : State :=
  {| query := q;
     selectedCountries := {| ref := 0; items := [] |};
     deps := None;
     svgRef := NotMounted;
     heap := 1;
     renders := 0 |}.

(** ** The returned JSX (lines 328-389) *)

Inductive View :=
  | VMessage (text : string)
  | VControls (options : list string)
  | VThrow.

Definition view (s : State) : View :=
  if isLoading (query s) then VMessage "Loading..."
  else if isError (query s) then VMessage "Error loading data."
  else match data (query s) with
       | None => VThrow (* gdpData.map on undefined *)
       | Some gdpData =>
           VControls ("All" :: Js.Set_from (map Row.Country (items gdpData)))
       end.

Definition commit (v : View) (c : Container) : Container :=
  match v with
  | VControls _ => match c with NotMounted => Mounted None | _ => c end
  | _ => NotMounted
  end.

(** [d3.select(svgRef.current).html('').append('svg')...] *)
Definition draw (svg : Svg) (c : Container) : Container :=
  match c with
  | NotMounted => NotMounted
  | Mounted _ => Mounted (Some svg)
  end.

(** Lines 214-326.  [snap] holds the values captured by the render and
    [dom] the node as committed; [None] when the effect throws. *)
Definition now (s : State) : option nat * nat :=
  (ref <$> data (query s), ref (selectedCountries s)).

Definition effect (snap : State) (dom : Container) : option State :=
  let now := now snap in
  if changed (deps snap) now then
    match data (query snap) with
    | None =>
        Some {| query := query snap; selectedCountries := selectedCountries snap;
                deps := Some now; svgRef := dom; heap := heap snap;
                renders := renders snap |}
    | Some gdpData =>
        svg ← render (items gdpData) (items (selectedCountries snap));
        Some {| query := query snap; selectedCountries := selectedCountries snap;
                deps := Some now; svgRef := draw svg dom; heap := heap snap;
                renders := S (renders snap) |}
    end
  else
    Some {| query := query snap; selectedCountries := selectedCountries snap;
            deps := deps snap; svgRef := dom; heap := heap snap;
            renders := renders snap |}.

(** One render and commit.  The effect sets no state, so one round leaves
    nothing pending. *)
Definition round (s : State) : option State :=
  match view s with
  | VThrow => None
  | v => effect s (commit v (svgRef s))
  end.

(** No effect is pending: a further render changes nothing. *)
Definition stable (s : State) : Prop := round s = Some s.

(** The reference held in state was allocated before [heap]. *)
Definition fresh (s : State) : Prop := ref (selectedCountries s) < heap s.

(** ** Event handlers *)

Inductive Event :=
  | Fetch (q : Query Row.t)           (* the hook returns a new result *)
  | Change (selected : list string).  (* <Select isMulti> onChange, by option value *)

(** Lines 346-352. *)
Definition onChange (selected : list string) : list string :=
  if existsb (λ v, bool_decide (v = "All")) selected then [] else selected.

Definition handle (s : State) (e : Event) : State :=
  match e, svgRef s with
  | Fetch q, _ =>
      {| query := q; selectedCountries := selectedCountries s;
         deps := deps s; svgRef := svgRef s; heap := heap s;
         renders := renders s |}
  | Change _, NotMounted => s (* the control is not on the page *)
  | Change selected, _ =>
      {| query := query s;
         selectedCountries := {| ref := heap s; items := onChange selected |};
         deps := deps s; svgRef := svgRef s; heap := S (heap s);
         renders := renders s |}
  end.

Definition step (s : State) (e : Event) : option State := round (handle s e).

Definition mount (q : Query Row.t) : option State := round (init q).

Definition run (q : Query Row.t) (es : list Event) : option State :=
  foldl (λ s e, s ≫= λ s, step s e) (mount q) es.

End GDPStreamGraph.


(* ===================================================================== *)
(** * Reference definitions, in the words of the specification *)
(* ===================================================================== *)

Module Spec.

Section Distinct.
Context {A : Type} `{EqDecision A}.

(** The distinct members of a sequence in first-seen order: every member
    is kept where it occurs first and dropped everywhere after. *)
Fixpoint first_seen (xs : list A) : list A :=
  match xs with
  | [] => []
  | x :: xs' => x :: filter (λ y, y ≠ x) (first_seen xs')
  end.
End Distinct.

(** The line-chart transform with no country filter at all: the rows of
    the selected year, pivoted. *)
Definition year_only (records : list MedalLineChart.Row.t) (year : Z)
    : list MedalLineChart.Point.t :=
  map MedalLineChart.pivot
      (filter (λ d, MedalLineChart.Row.Year d = year) records).



(** The colour a fixed palette gives to a category by its position in an
    ordered category list, cycling through the palette. *)
Definition palette_colour (palette categories : list string) (c : string)
    : option string :=
  i ← Js.indexOf c categories; palette !! (i mod length palette).

(** The categories of the line chart in the order its colour scale first
    sees them: the countries of the rows as drawn, by ascending Gold. *)
Definition line_categories (filteredData : list MedalLineChart.Point.t)
    : list string :=
  first_seen (map MedalLineChart.Point.name (MedalLineChart.drawOrder filteredData)).

End Spec.

(* ===================================================================== *)
(** * Sample feeds and sessions *)
(* ===================================================================== *)

Module Examples.

(** A hook result that carries [rows] and no flag. *)
Definition loaded {A : Type} (rows : list A) : Query A :=
  {| data := Some {| ref := 0; items := rows |}; isLoading := false; isError := false |}.

(** A failed refetch: the flag is set and the rows of the last successful
    fetch are still there. *)
Definition failed_with {A : Type} (rows : list A) : Query A :=
  {| data := Some {| ref := 0; items := rows |}; isLoading := false; isError := true |}.


Module Medals.
Import MedalLineChart.

Definition usa21 := Row.mk 2021 "USA" 39 41 33.
Definition chn21 := Row.mk 2021 "CHN" 38 32 18.
Definition usa08 := Row.mk 2008 "USA" 36 39 37.
Definition chn16 := Row.mk 2016 "CHN" 26 18 26.

(** The session that ends in an empty result: USA is staged while 2021
    is shown, the year is changed to 2016, where only CHN has a row, and
    the staged selection is applied. *)
Definition empty_result_session : list Event :=
  [EditCountries ["USA"]; ChangeYear 2016; Apply].

(** The titles of the paths on the page. *)
Definition drawn (c : Container) : list string :=
  match c with
  | Mounted (Some svg) => map title (paths svg)
  | _ => []
  end.
End Medals.

Module GDP.
Import GDPStreamGraph.

Definition growing : list Row.t :=
  [Row.mk 2000 "A" (Some 1%Q); Row.mk 2001 "A" (Some 3%Q)].



Definition two_by_two : list Row.t :=
  [Row.mk 2000 "A" (Some 1%Q); Row.mk 2001 "A" (Some 3%Q);
   Row.mk 2000 "B" (Some (5 # 2)%Q); Row.mk 2001 "B" None].

Definition eleven : list Row.t :=
  map (λ c, Row.mk 2020 c (Some 1%Q))
      ["A"; "B"; "C"; "D"; "E"; "F"; "G"; "H"; "I"; "J"; "K"].

(** The bands on the page, by title. *)
Definition drawn (c : Container) : list (string * list (Z * D3.Point)) :=
  match c with
  | Mounted (Some svg) => map (λ a, (title a, band a)) (areas svg)
  | _ => []
  end.
End GDP.

End Examples.

(* ===================================================================== *)
(** * Reading the feeds *)
(* ===================================================================== *)

Module Feed.

(** The references of the transformed rows and of the keys were allocated
    before [heap]. *)
Definition fresh_data (s : MedalLineChart.State) : Prop :=
  ref (MedalLineChart.filteredData s) < MedalLineChart.heap s ∧
  ref (MedalLineChart.keys s) < MedalLineChart.heap s.

(** A hook result with neither flag nor data. *)
Definition no_result {A : Type} (q : Query A) : Prop :=
  isLoading q = false ∧ isError q = false ∧ data q = None.




End Feed.

(* ===================================================================== *)
(** * Scales and positions *)
(* ===================================================================== *)

(** The continuous and point scales of d3-scale 4, [d3.extent] of d3-array
    3 and the interpolators of d3-interpolate 3, on exact rationals. *)
Module Scale.

(** [d3.extent(values, valueof)] after [valueof] has dropped the values
    that are [null] or [undefined]: [min] and [max] are set together by
    the first value.  [None] is [[undefined, undefined]]. *)
Definition extent (values : list Z) : option (Z * Z) :=
  fold_left (λ (acc : option (Z * Z)) value,
               match acc with
               | None => Some (value, value)
               | Some (min, max) =>
                   Some (if (value <? min)%Z then value else min,
                         if (max <? value)%Z then value else max)
               end)
            values None.

(** [normalize(a, b)]: [(b -= a) ? x => (x - a) / b : constant(0.5)] *)
Definition normalize (a b x : Q) : Q :=
  if Qeq_bool (b - a) 0 then (1 # 2)%Q else ((x - a) / (b - a))%Q.

(** [interpolateNumber(a, b)(t)] *)
Definition interpolateNumber (a b t : Q) : Q := (a * (1 - t) + b * t)%Q.

(** [Math.round]: the nearest integer, a half going up. *)
Definition round (x : Q) : Z := Qfloor (x + (1 # 2))%Q.


(** [bimap(domain, range, interpolate)] *)
Definition bimap (domain range : Q * Q) (interpolate : Q → Q → Q → Q) (x : Q) : Q :=
  let '(d0, d1) := domain in
  let '(r0, r1) := range in
  if D3.Qlt_bool d1 d0 then interpolate r1 r0 (normalize d1 d0 x)
  else interpolate r0 r1 (normalize d0 d1 x).

(** [d3.scaleLinear(domain, range)(x)] and
    [d3.scaleLinear().domain(domain).rangeRound(range)(x)] *)
Definition scaleLinear (domain range : Q * Q) (x : Q) : Q :=
  bimap domain range interpolateNumber x.


(** [d3.scalePoint(domain, range)(key)]: a band scale with inner padding
    1, no outer padding and alignment 0.5.  [None] is [undefined], for a
    key that is not in the domain. *)
Definition scalePoint (domain : list string) (range : Q * Q) (key : string)
    : option Q :=
  let domain := Js.Set_from domain in
  let n := length domain in
  let '(r0, r1) := range in
  let reverse := D3.Qlt_bool r1 r0 in
  let start := if reverse then r1 else r0 in
  let stop := if reverse then r0 else r1 in
  let step := ((stop - start) / inject_Z (Z.max 1 (Z.of_nat n - 1)))%Q in
  let start :=
    (start + (stop - start - step * inject_Z (Z.of_nat n - 1)) * (1 # 2))%Q in
  let values := map (λ i, (start + step * inject_Z (Z.of_nat i))%Q) (seq 0 n) in
  let values := if reverse then rev values else values in
  i ← Js.indexOf key domain; values !! (i mod length values).

End Scale.

(** Where the line chart and the stream graph put their marks. *)
Module Geometry.

(** Lines 44-50 and 207-212. *)
Definition width : Q := 960.
Definition marginTop : Q := 20.
Definition marginRight : Q := 10.
Definition marginBottom : Q := 20.
Definition marginLeft : Q := 10.
Definition height (keys : list string) : Q := inject_Z (Z.of_nat (length keys) * 120).

(** Lines 52-59: [x.get(key)(value)]; [None] when the extent of the key
    is undefined. *)
Definition x (filteredData : list MedalLineChart.Point.t) (key : string)
    (value : Z) : option Q :=
  e ← Scale.extent (omap (λ d, MedalLineChart.Point.get d key) filteredData);
  Some (Scale.scaleLinear (inject_Z e.1, inject_Z e.2)
                          (marginLeft, (width - marginRight)%Q)
                          (inject_Z value)).

(** Line 61: [y(key)] *)
Definition y (keys : list string) (key : string) : option Q :=
  Scale.scalePoint keys (marginTop, (height keys - marginBottom)%Q) key.

(** Lines 65-68 and 85: the points of the path of row [d], one for each
    key; [None] is a point that is not defined, where the line breaks. *)
Definition line (filteredData : list MedalLineChart.Point.t) (keys : list string)
    (d : MedalLineChart.Point.t) : list (option (option Q * option Q)) :=
  map (λ key, match MedalLineChart.Point.get d key with
              | Some value => Some (x filteredData key value, y keys key)
              | None => None
              end)
      keys.


End Geometry.

(* ===================================================================== *)
(** * Arrays and sets: basic facts *)
(* ===================================================================== *)

Section JsFacts.
Context {A : Type} `{EqDecision A}.
Implicit Types (x y : A) (xs ys : list A).

Lemma filter_all (P : A → Prop) `{∀ x, Decision (P x)} xs :
  (∀ x, x ∈ xs → P x) → filter P xs = xs.
Proof.
  induction xs as [|x xs IH]; intros HP; [done|].
  rewrite filter_cons_True by (apply HP; left).
  f_equal. apply IH. intros y Hy. apply HP. by right.
Qed.

Lemma filter_none (P : A → Prop) `{∀ x, Decision (P x)} xs :
  (∀ x, x ∈ xs → ¬ P x) → filter P xs = [].
Proof.
  induction xs as [|x xs IH]; intros HP; [done|].
  rewrite filter_cons_False by (apply HP; left).
  apply IH. intros y Hy. apply HP. by right.
Qed.

Lemma indexOf_None x xs : Js.indexOf x xs = None ↔ x ∉ xs.
Proof.
  induction xs as [|y ys IH]; simpl.
  - split; [intros _; apply not_elem_of_nil | done].
  - rewrite not_elem_of_cons. destruct (decide (x = y)) as [->|Hne].
    + split; [done | intros [? _]; done].
    + destruct (Js.indexOf x ys); simpl.
      * split; [done|]. intros [_ Hn]. by apply IH in Hn.
      * split; [|done]. intros _. split; [done|]. by apply IH.
Qed.

Lemma indexOf_lookup x xs i : Js.indexOf x xs = Some i → xs !! i = Some x.
Proof.
  revert i. induction xs as [|y ys IH]; intros i; simpl; [done|].
  destruct (decide (x = y)) as [->|Hne].
  - by intros [= <-].
  - destruct (Js.indexOf x ys) as [k|]; simpl; [|done].
    intros [= <-]. simpl. by apply IH.
Qed.

Lemma indexOf_app_l x xs ys i :
  Js.indexOf x xs = Some i → Js.indexOf x (xs ++ ys) = Some i.
Proof.
  revert i. induction xs as [|y zs IH]; intros i; simpl; [done|].
  destruct (decide (x = y)); [done|].
  destruct (Js.indexOf x zs) as [k|]; simpl; [|done].
  intros [= <-]. by rewrite (IH k).
Qed.

Lemma indexOf_app_fresh x xs :
  x ∉ xs → Js.indexOf x (xs ++ [x]) = Some (length xs).
Proof.
  induction xs as [|y ys IH]; simpl.
  - intros _. by rewrite decide_True.
  - rewrite not_elem_of_cons. intros [Hne Hn].
    rewrite decide_False by done. by rewrite IH.
Qed.

Lemma Set_add_elem s x y : y ∈ Js.Set_add s x ↔ y ∈ s ∨ y = x.
Proof.
  unfold Js.Set_add. destruct (decide (x ∈ s)) as [Hin|Hn].
  - split; [by left|]. intros [?| ->]; done.
  - rewrite elem_of_app, list_elem_of_singleton. done.
Qed.

(** Adding the members of [xs] to a set [s] appends, in first-seen order,
    those that [s] lacks. *)
Lemma fold_Set_add xs s :
  fold_left Js.Set_add xs s = s ++ filter (λ y, y ∉ s) (Spec.first_seen xs).
Proof.
  revert s. induction xs as [|x xs IH]; intros s; simpl.
  - by rewrite filter_nil, app_nil_r.
  - rewrite IH. unfold Js.Set_add. destruct (decide (x ∈ s)) as [Hin|Hn].
    + rewrite filter_cons_False by (intros ?; done). f_equal.
      rewrite list_filter_filter. apply list_filter_iff.
      intros y. split; [|tauto]. intros Hy. split; [done|]. by intros ->.
    + rewrite filter_cons_True by done. rewrite <- app_assoc. simpl.
      do 2 f_equal. rewrite list_filter_filter. apply list_filter_iff.
      intros y. rewrite not_elem_of_app, list_elem_of_singleton. tauto.
Qed.

(** [new Set(xs)] lists the distinct members of [xs] in first-seen order. *)
Lemma Set_from_first_seen xs : Js.Set_from xs = Spec.first_seen xs.
Proof.
  unfold Js.Set_from. rewrite fold_Set_add. simpl.
  apply filter_all. intros y _. apply not_elem_of_nil.
Qed.

Lemma first_seen_elem xs y : y ∈ Spec.first_seen xs ↔ y ∈ xs.
Proof.
  induction xs as [|x xs IH]; simpl; [done|].
  rewrite !elem_of_cons, list_elem_of_filter, IH.
  destruct (decide (y = x)); tauto.
Qed.

Lemma first_seen_NoDup xs : NoDup (Spec.first_seen xs).
Proof.
  induction xs as [|x xs IH]; simpl; [constructor|].
  constructor.
  - rewrite list_elem_of_filter. intros [? _]. done.
  - by apply NoDup_filter.
Qed.

Lemma first_seen_id xs : NoDup xs → Spec.first_seen xs = xs.
Proof.
  induction 1 as [|x xs Hn _ IH]; simpl; [done|].
  rewrite IH. f_equal. apply filter_all.
  intros y Hy ->. done.
Qed.
End JsFacts.

(* ===================================================================== *)
(** * The line-chart transform *)
(* ===================================================================== *)

Section LineTransform.
Import MedalLineChart Spec.



End LineTransform.

Section LineMachine.
Import MedalLineChart.

Lemma changed_false {D : Type} `{EqDecision D} (seen : option D) (now : D) :
  changed seen now = false → seen = Some now.
Proof.
  unfold changed. intros Hc. apply bool_decide_eq_false in Hc.
  destruct (decide (seen = Some now)); [done|]. by destruct Hc.
Qed.

Lemma changed_same {D : Type} `{EqDecision D} (now : D) :
  changed (Some now) now = false.
Proof. unfold changed. apply bool_decide_eq_false. intros Hc. by apply Hc. Qed.

Ltac effects :=
  unfold effect1, effect2, effect3, set_chart, now2, now3, dataRef; simpl;
  repeat match goal with
         | |- context [changed ?a ?b] => destruct (changed a b) eqn:?; simpl
         | |- context [match data ?q with _ => _ end] => destruct (data q) eqn:?; simpl
         | |- context [match truthy ?y with _ => _ end] => destruct (truthy y) eqn:?; simpl
         end.

Lemma round_inv s s' :
  round s = Some s' →
  view s ≠ VThrow ∧
  s' = effect3 s (effect2 s (effect1 s (set_chart (commit (view s) (chart s)) s))).
Proof.
  unfold round. destruct (view s); intros [= <-]; done.
Qed.

Lemma round_frame s s' :
  round s = Some s' →
  query s' = query s ∧ selectedCountries s' = selectedCountries s ∧
  appliedCountries s' = appliedCountries s ∧
  deps1 s' = Some (dataRef s) ∧ deps2 s' = Some (now2 s) ∧ deps3 s' = Some (now3 s) ∧
  heap s ≤ heap s'.
Proof.
  intros Hr. apply round_inv in Hr as [_ ->].
  effects; repeat split; try lia; try done; by apply changed_false.
Qed.

(** An effect whose dependencies are unchanged does not run. *)
Lemma effect1_idle snap acc :
  deps1 snap = Some (dataRef snap) → effect1 snap acc = acc.
Proof. intros H1. unfold effect1. by rewrite H1, changed_same. Qed.

Lemma effect2_idle snap acc :
  deps2 snap = Some (now2 snap) → effect2 snap acc = acc.
Proof. intros H2. unfold effect2. simpl. by rewrite H2, changed_same. Qed.

Lemma effect3_idle snap acc :
  deps3 snap = Some (now3 snap) → effect3 snap acc = acc.
Proof. intros H3. unfold effect3. simpl. by rewrite H3, changed_same. Qed.

Lemma round_year s s' :
  round s = Some s' → deps1 s = Some (dataRef s) → selectedYear s' = selectedYear s.
Proof.
  intros Hr H1. apply round_inv in Hr as [_ ->].
  rewrite (effect1_idle _ _ H1). effects; done.
Qed.

Lemma round_data s s' :
  round s = Some s' → deps2 s = Some (now2 s) →
  filteredData s' = filteredData s ∧ keys s' = keys s ∧
  transforms s' = transforms s ∧ heap s' = heap s.
Proof.
  intros Hr H2. apply round_inv in Hr as [_ ->].
  rewrite (effect2_idle _ _ H2). effects; done.
Qed.

Lemma round_chart s s' :
  round s = Some s' → deps3 s = Some (now3 s) →
  chart s' = commit (view s) (chart s) ∧ renders s' = renders s.
Proof.
  intros Hr H3. apply round_inv in Hr as [_ ->].
  rewrite (effect3_idle _ _ H3). effects; done.
Qed.

(** The third effect only touches the DOM. *)
Lemma effect3_data snap acc :
  filteredData (effect3 snap acc) = filteredData acc.
Proof. unfold effect3. by destruct (changed (deps3 snap) (now3 snap)). Qed.


(** The view, and what it commits, depend on the hook result only. *)
Lemma view_throw s s' : query s' = query s → view s ≠ VThrow → view s' ≠ VThrow.
Proof.
  unfold view. intros ->.
  destruct (isLoading (query s)), (isError (query s)), (data (query s)); done.
Qed.

Lemma commit_query s s' c :
  query s' = query s → commit (view s') c = commit (view s) c.
Proof.
  unfold view. intros ->.
  destruct (isLoading (query s)), (isError (query s)), (data (query s)); done.
Qed.

Lemma commit_commit v c : commit v (commit v c) = commit v c.
Proof. destruct v, c; done. Qed.

Lemma commit_draw v svg c : commit v (draw svg (commit v c)) = draw svg (commit v c).
Proof. destruct v, c; done. Qed.

Lemma round_commit s s' : round s = Some s' → commit (view s) (chart s') = chart s'.
Proof.
  intros Hr. apply round_inv in Hr as [_ ->].
  effects; repeat case_bool_decide; simpl; auto using commit_commit, commit_draw.
Qed.

Lemma round_total s : view s ≠ VThrow → is_Some (round s).
Proof. unfold round. destruct (view s); [eauto..|done]. Qed.

(** A state whose dependencies are all up to date is stable. *)
Lemma round_fixed s :
  view s ≠ VThrow → deps1 s = Some (dataRef s) → deps2 s = Some (now2 s) →
  deps3 s = Some (now3 s) → commit (view s) (chart s) = chart s → stable s.
Proof.
  intros Hv H1 H2 H3 Hc. unfold stable, round.
  assert (effect3 s (effect2 s (effect1 s (set_chart (commit (view s) (chart s)) s))) = s)
    as E.
  { rewrite (effect3_idle _ _ H3), (effect2_idle _ _ H2), (effect1_idle _ _ H1), Hc.
    by destruct s. }
  revert E. destruct (view s); [| |done]; cbv zeta; by intros ->.
Qed.

Lemma stable_inv s :
  stable s →
  view s ≠ VThrow ∧ deps1 s = Some (dataRef s) ∧ deps2 s = Some (now2 s) ∧
  deps3 s = Some (now3 s) ∧ commit (view s) (chart s) = chart s.
Proof.
  intros Hs. pose proof (round_frame _ _ Hs) as (_ & _ & _ & ? & ? & ? & _).
  pose proof (round_commit _ _ Hs). pose proof (round_inv _ _ Hs) as [? _]. done.
Qed.

(** Three rounds settle the component. *)
Lemma settle_stable s s' : settle s = Some s' → stable s'.
Proof.
  unfold settle. intros Hs.
  destruct (round s) as [s1|] eqn:R1; [simpl in Hs|done].
  destruct (round s1) as [s2|] eqn:R2; [simpl in Hs|done].
  rename s' into s3. rename Hs into R3.
  pose proof (round_frame _ _ R1) as (Q1 & _ & A1 & D11 & D12 & D13 & _).
  pose proof (round_frame _ _ R2) as (Q2 & _ & A2 & D21 & D22 & D23 & _).
  pose proof (round_frame _ _ R3) as (Q3 & _ & A3 & D31 & D32 & D33 & _).
  assert (dataRef s1 = dataRef s) as E1 by (unfold dataRef; by rewrite Q1).
  assert (dataRef s2 = dataRef s1) as E2 by (unfold dataRef; by rewrite Q2).
  assert (dataRef s3 = dataRef s2) as E3 by (unfold dataRef; by rewrite Q3).
  assert (selectedYear s2 = selectedYear s1) as Y2.
  { apply (round_year _ _ R2). by rewrite D11, E1. }
  assert (selectedYear s3 = selectedYear s2) as Y3.
  { apply (round_year _ _ R3). by rewrite D21, E2. }
  assert (deps2 s2 = Some (now2 s2)) as N2.
  { rewrite D22. unfold now2. by rewrite E2, Y2, A2. }
  pose proof (round_data _ _ R3 N2) as (F3 & K3 & _ & _).
  apply round_fixed.
  - apply (view_throw s2); [done|]. by apply (round_inv _ _ R3).
  - by rewrite D31, E3.
  - rewrite D32. unfold now2. by rewrite E3, Y3, A3.
  - rewrite D33. unfold now3. by rewrite F3, K3.
  - rewrite (commit_query s2) by done. by apply round_commit.
Qed.
Lemma settle_fixed s : stable s → settle s = Some s.
Proof. unfold stable, settle. intros Hs. rewrite Hs. simpl. by rewrite Hs. Qed.

(** Settling succeeds whenever the view renders, and leaves the hook
    result and both country selections as they were. *)
Lemma settle_total s :
  view s ≠ VThrow →
  ∃ s', settle s = Some s' ∧ query s' = query s ∧
        selectedCountries s' = selectedCountries s ∧
        appliedCountries s' = appliedCountries s ∧ heap s ≤ heap s'.
Proof.
  intros Hv. unfold settle.
  destruct (round_total s Hv) as [s1 R1]. rewrite R1. simpl.
  pose proof (round_frame _ _ R1) as (Q1 & S1 & A1 & _ & _ & _ & L1).
  destruct (round_total s1 (view_throw s s1 Q1 Hv)) as [s2 R2]. rewrite R2. simpl.
  pose proof (round_frame _ _ R2) as (Q2 & S2 & A2 & _ & _ & _ & L2).
  assert (view s2 ≠ VThrow) as Hv2.
  { apply (view_throw s); [congruence | done]. }
  destruct (round_total s2 Hv2) as [s3 R3].
  pose proof (round_frame _ _ R3) as (Q3 & S3 & A3 & _ & _ & _ & L3).
  exists s3. repeat split; try congruence. lia.
Qed.

Lemma settle_frame s s' :
  settle s = Some s' →
  query s' = query s ∧ selectedCountries s' = selectedCountries s ∧
  appliedCountries s' = appliedCountries s ∧ heap s ≤ heap s'.
Proof.
  intros Hs. assert (view s ≠ VThrow) as Hv.
  { unfold settle in Hs. destruct (round s) eqn:R; [|done].
    by apply (round_inv _ _ R). }
  destruct (settle_total s Hv) as (s'' & Hs' & ?). by simplify_eq.
Qed.

(** After a handler that leaves the dependencies of the first effect
    alone, the second effect runs at most once, in the first round. *)
Lemma settle_after_handler h :
  view h ≠ VThrow → deps1 h = Some (dataRef h) →
  ∃ s1 s', round h = Some s1 ∧ settle h = Some s' ∧
           filteredData s' = filteredData s1 ∧ keys s' = keys s1 ∧
           transforms s' = transforms s1 ∧
           selectedYear s' = selectedYear h.
Proof.
  intros Hv H1. unfold settle.
  destruct (round_total h Hv) as [s1 R1]. rewrite R1. simpl.
  pose proof (round_frame _ _ R1) as (Q1 & _ & A1 & D11 & D12 & _).
  pose proof (round_year _ _ R1 H1) as Y1.
  assert (dataRef s1 = dataRef h) as E1 by (unfold dataRef; by rewrite Q1).
  destruct (round_total s1 (view_throw h s1 Q1 Hv)) as [s2 R2]. rewrite R2. simpl.
  pose proof (round_frame _ _ R2) as (Q2 & _ & A2 & D21 & D22 & _).
  assert (dataRef s2 = dataRef s1) as E2 by (unfold dataRef; by rewrite Q2).
  assert (deps2 s1 = Some (now2 s1)) as N1.
  { rewrite D12. unfold now2. by rewrite E1, Y1, A1. }
  pose proof (round_data _ _ R2 N1) as (F2 & K2 & T2 & _).
  assert (selectedYear s2 = selectedYear s1) as Y2.
  { apply (round_year _ _ R2). by rewrite D11, E1. }
  assert (deps2 s2 = Some (now2 s2)) as N2.
  { rewrite D22. unfold now2. by rewrite E2, Y2, A2. }
  assert (view s2 ≠ VThrow) as Hv2.
  { apply (view_throw h); [congruence | done]. }
  destruct (round_total s2 Hv2) as [s3 R3].
  pose proof (round_data _ _ R3 N2) as (F3 & K3 & T3 & _).
  assert (selectedYear s3 = selectedYear s2) as Y3.
  { apply (round_year _ _ R3). by rewrite D21, E2. }
  exists s1, s3. repeat split; congruence.
Qed.

(** ** Reachable states *)

Lemma handle_fresh s e : fresh s → fresh (handle s e).
Proof.
  unfold fresh. intros [? ?].
  destruct e, (chart s) eqn:?; unfold handle; rewrite ?Heqc; simpl; lia.
Qed.

Lemma settle_fresh s s' : settle s = Some s' → fresh s → fresh s'.
Proof.
  intros Hs [? ?]. apply settle_frame in Hs as (_ & Hsel & Happ & ?).
  unfold fresh. rewrite Hsel, Happ. lia.
Qed.

Lemma run_snoc q es e : run q (es ++ [e]) = run q es ≫= λ s, step s e.
Proof. unfold run. by rewrite foldl_app. Qed.

Lemma run_app q es es' :
  run q (es ++ es') = foldl (λ s e, s ≫= λ s, step s e) (run q es) es'.
Proof. unfold run. by rewrite foldl_app. Qed.

(** Every state the component reaches is settled, with references below
    the allocation pointer. *)
Lemma run_invariant q es s : run q es = Some s → stable s ∧ fresh s.
Proof.
  revert s. induction es as [|e es IH] using rev_ind; intros s.
  - unfold run, mount. simpl. intros Hs. split.
    + by apply (settle_stable _ _ Hs).
    + apply (settle_fresh _ _ Hs). unfold fresh, init. simpl. lia.
  - rewrite run_snoc. destruct (run q es) as [s0|]; [simpl|done].
    destruct (IH s0 eq_refl) as [_ Hf]. unfold step. intros Hs. split.
    + by apply (settle_stable _ _ Hs).
    + apply (settle_fresh _ _ Hs). by apply handle_fresh.
Qed.

(** While the chart node is on the page the hook holds data and neither
    flag is set. *)
Lemma mounted_view s :
  stable s → chart s ≠ NotMounted →
  isLoading (query s) = false ∧ isError (query s) = false ∧
  ∃ d, data (query s) = Some d.
Proof.
  intros Hs Hc. apply stable_inv in Hs as (Hv & _ & _ & _ & Hcm).
  revert Hv Hcm. unfold view.
  destruct (isLoading (query s)), (isError (query s)), (data (query s));
    simpl; intros Hv Hcm; try done; try (by rewrite <- Hcm in Hc); eauto.
Qed.
(** ** Editing the staged selection *)

Lemma edit_step s l :
  stable s →
  step s (EditCountries l) = Some (handle s (EditCountries l)) ∧
  stable (handle s (EditCountries l)).
Proof.
  intros Hs. assert (stable (handle s (EditCountries l))) as Hh.
  { destruct (stable_inv s Hs) as (Hv & H1 & H2 & H3 & Hc).
    unfold handle. destruct (chart s) eqn:Ec; [done|].
    apply round_fixed; simpl; try done; by rewrite Ec. }
  split; [|done]. by apply settle_fixed.
Qed.

Lemma edits_run s edits :
  stable s →
  ∃ s', foldl (λ s e, s ≫= λ s, step s e) (Some s) (map EditCountries edits) = Some s' ∧
        stable s' ∧ query s' = query s ∧ selectedYear s' = selectedYear s ∧
        appliedCountries s' = appliedCountries s ∧
        filteredData s' = filteredData s ∧ keys s' = keys s ∧
        chart s' = chart s ∧
        transforms s' = transforms s ∧ renders s' = renders s ∧
        (chart s ≠ NotMounted →
         items (selectedCountries s') = default (items (selectedCountries s)) (last edits)).
Proof.
  intros Hs. induction edits as [|l edits IH] using rev_ind.
  - exists s. simpl. repeat split; done.
  - destruct IH as (s1 & Hrun & Hs1 & Q & Y & A & F & K & C & T & R & L).
    rewrite map_app, foldl_app, Hrun. simpl.
    destruct (edit_step s1 l Hs1) as [-> Hh].
    eexists. split; [done|]. split; [done|].
    rewrite last_snoc. simpl.
    unfold handle. destruct (chart s1) eqn:Ec; simpl.
    + repeat split; congruence.
    + repeat split; congruence.
Qed.

(** ** Changing the year *)

Lemma year_step s y :
  stable s → fresh s → chart s ≠ NotMounted →
  ∃ d s', data (query s) = Some d ∧ step s (ChangeYear y) = Some s' ∧
          selectedYear s' = YNum y ∧
          items (appliedCountries s') = [] ∧
          (y ≠ 0%Z → items (filteredData s') = transform (items d) y []).
Proof.
  intros Hs [_ Hf] Hc.
  destruct (mounted_view s Hs Hc) as (HL & HE & d & Hd).
  destruct (stable_inv s Hs) as (Hv & H1 & H2 & H3 & _).
  set (h := handle s (ChangeYear y)).
  assert (h = {| query := query s; selectedYear := YNum y;
                 selectedCountries := selectedCountries s;
                 appliedCountries := {| ref := heap s; items := [] |};
                 filteredData := filteredData s; keys := keys s;
                 deps1 := deps1 s; deps2 := deps2 s; deps3 := deps3 s;
                 chart := chart s; heap := S (heap s);
                 transforms := transforms s; renders := renders s |}) as Eh.
  { unfold h, handle. by destruct (chart s). }
  assert (view h ≠ VThrow) as Hvh.
  { apply (view_throw s); [by rewrite Eh | done]. }
  assert (deps1 h = Some (dataRef h)) as H1h by (by rewrite Eh).
  destruct (settle_after_handler h Hvh H1h) as (s1 & s' & R1 & Hset & F & _ & _ & Y).
  exists d, s'. split; [done|]. split; [done|].
  destruct (settle_frame _ _ Hset) as (_ & _ & A & _).
  split; [by rewrite Y, Eh|]. split; [by rewrite A, Eh|].
  intros Hy. rewrite F.
  apply round_inv in R1 as [_ ->].
  rewrite (effect1_idle _ _ H1h).
  assert (changed (deps2 h) (now2 h) = true) as Hch.
  { rewrite Eh. unfold now2. simpl. rewrite H2. unfold changed, now2.
    apply bool_decide_eq_true. intros E. simplify_eq/=. lia. }
  rewrite effect3_data. unfold effect2. simpl. rewrite Hch.
  rewrite Eh. simpl. rewrite Hd. rewrite decide_False by done. done.
Qed.
(** ** Loading and error results *)

Lemma message_view s :
  isLoading (query s) = true ∨ isError (query s) = true →
  view s = VMessage (if isLoading (query s) then "Loading..."
                     else "Failed to load data.").
Proof.
  unfold view. destruct (isLoading (query s)), (isError (query s));
    intros [?|?]; done.
Qed.





End LineMachine.

(* ===================================================================== *)
(** * Sorting and the stacking order *)
(* ===================================================================== *)

Section Order.
Lemma insert_Permutation {A : Type} (cmp : A → A → Z) x xs :
  Js.insert cmp x xs ≡ₚ x :: xs.
Proof.
  induction xs as [|y ys IH]; simpl; [done|].
  destruct (0 <? cmp x y)%Z; [|done].
  rewrite IH. apply Permutation_swap.
Qed.

Lemma sort_Permutation {A : Type} (cmp : A → A → Z) xs : Js.sort cmp xs ≡ₚ xs.
Proof.
  induction xs as [|x xs IH]; simpl; [done|].
  unfold Js.sort in *. simpl. by rewrite insert_Permutation, IH.
Qed.

Lemma appearance_Permutation sz :
  D3.stackOrderAppearance sz ≡ₚ seq 0 (length sz).
Proof. unfold D3.stackOrderAppearance. apply sort_Permutation. Qed.

(** The inside-out loop deals every index to the top or to the bottom
    pile. *)
Lemma insideOut_loop (sums : list Q) order top bottom tops bottoms :
  let '(_, _, tops', bottoms') :=
    fold_left
      (λ (acc : Q * Q * list nat * list nat) j,
         let '(top, bottom, tops, bottoms) := acc in
         if D3.Qlt_bool top bottom
         then ((top + default 0%Q (sums !! j))%Q, bottom, tops ++ [j], bottoms)
         else (top, (bottom + default 0%Q (sums !! j))%Q, tops, bottoms ++ [j]))
      order (top, bottom, tops, bottoms) in
  reverse bottoms' ++ tops' ≡ₚ (reverse bottoms ++ tops) ++ order.
Proof.
  revert top bottom tops bottoms.
  induction order as [|j order IH]; intros top bottom tops bottoms; simpl.
  - by rewrite app_nil_r.
  - destruct (D3.Qlt_bool top bottom).
    + specialize (IH (top + default 0%Q (sums !! j))%Q bottom (tops ++ [j]) bottoms).
      destruct (fold_left _ order _) as [[[? ?] tops'] bottoms'].
      rewrite IH. rewrite !app_assoc. rewrite <- !app_assoc.
      apply Permutation_app_head. by apply Permutation_app_head.
    + specialize (IH top (bottom + default 0%Q (sums !! j))%Q tops (bottoms ++ [j])).
      destruct (fold_left _ order _) as [[[? ?] tops'] bottoms'].
      rewrite IH. rewrite reverse_app. simpl.
      rewrite <- !app_assoc. simpl.
      rewrite (app_assoc (reverse bottoms) tops (j :: order)).
      rewrite <- Permutation_middle. by rewrite <- app_assoc.
Qed.

Lemma insideOut_Permutation sz :
  D3.stackOrderInsideOut sz ≡ₚ seq 0 (length sz).
Proof.
  unfold D3.stackOrderInsideOut.
  pose proof (insideOut_loop (map D3.sum sz) (D3.stackOrderAppearance sz)
                             0%Q 0%Q [] []) as H.
  destruct (fold_left _ _ _) as [[[? ?] tops] bottoms].
  rewrite H. simpl. apply appearance_Permutation.
Qed.
End Order.

(* ===================================================================== *)
(** * The stack offsets *)
(* ===================================================================== *)

Section Offset.
Import D3.
Implicit Types (sz : Matrix) (oz : list nat) (p : Point).

Lemma row_lookup sz i r : sz !! i = Some r → row sz i = r.
Proof. unfold row. by intros ->. Qed.

Lemma row_insert sz i r : i < length sz → row (<[i := r]> sz) i = r.
Proof. intros Hi. unfold row. by rewrite list_lookup_insert_eq. Qed.

Lemma row_insert_ne sz i k r : i ≠ k → row (<[i := r]> sz) k = row sz k.
Proof. intros Hi. unfold row. by rewrite list_lookup_insert_ne. Qed.

Lemma rect_row m sz i : rect m sz → i < length sz → length (row sz i) = m.
Proof.
  intros Hr Hi. destruct (lookup_lt_is_Some_2 sz i Hi) as [r Hr'].
  rewrite (row_lookup _ _ _ Hr'). unfold rect in Hr.
  rewrite Forall_lookup in Hr. by apply (Hr i).
Qed.

Lemma rect_insert m sz i r : rect m sz → length r = m → rect m (<[i := r]> sz).
Proof. intros Hr Hl. by apply Forall_insert. Qed.

(** ** Rebasing one point of one series *)

Lemma row_rebase_at sz i j y :
  row (rebase_at sz i j y) i = alter (rebase y) j (row sz i).
Proof.
  unfold row, rebase_at. rewrite list_lookup_alter_eq.
  by destruct (sz !! i).
Qed.

Lemma row_rebase_at_ne sz i j y k :
  i ≠ k → row (rebase_at sz i j y) k = row sz k.
Proof. intros Hk. unfold row, rebase_at. by rewrite list_lookup_alter_ne. Qed.

Lemma length_rebase_at sz i j y : length (rebase_at sz i j y) = length sz.
Proof. unfold rebase_at. apply length_alter. Qed.

Lemma rect_rebase_at m sz i j y : rect m sz → rect m (rebase_at sz i j y).
Proof.
  unfold rect, rebase_at. intros Hr. rewrite Forall_lookup in *.
  intros k r. destruct (decide (i = k)) as [->|Hk].
  - rewrite list_lookup_alter_eq. destruct (sz !! k) as [r0|] eqn:E; [|done].
    simpl. intros [= <-]. rewrite length_alter. by apply (Hr k).
  - rewrite list_lookup_alter_ne by done. apply Hr.
Qed.

(** ** The wiggle loop

    It rebases points of the first series of the order only, and the
    point of column [j - 1] on the iteration for [j]. *)
Lemma wiggle_loop_spec oz n js : ∀ sz y sz' y',
  wiggle_loop js sz oz n y = (sz', y') →
  NoDup ((λ j, j - 1) <$> js) →
  length sz' = length sz ∧
  (∀ m, rect m sz → rect m sz') ∧
  (∀ k, ord oz 0 ≠ k → row sz' k = row sz k) ∧
  (∀ c p, row sz (ord oz 0) !! c = Some p →
     ∃ p', row sz' (ord oz 0) !! c = Some p' ∧
           (c ∉ (λ j, j - 1) <$> js → p' = p) ∧
           (c ∈ (λ j, j - 1) <$> js → ∃ yc, p' = rebase yc p)).
Proof.
  induction js as [|j js IH]; intros sz y sz' y'; simpl.
  - intros [= <- <-] _. repeat split; try done.
    intros c p Hp. exists p. split; [done|]. split; [done|].
    intros Hc. by apply elem_of_nil in Hc.
  - destruct (wiggle_sums sz oz n j) as [s1 s2].
    intros Hl Hnd. apply NoDup_cons in Hnd as [Hj Hnd].
    destruct (IH _ _ _ _ Hl Hnd) as (L & R & O & C).
    split; [by rewrite L, length_rebase_at|].
    split; [intros m Hm; by apply R, rect_rebase_at|].
    split; [intros k Hk; by rewrite O, row_rebase_at_ne|].
    intros c p Hp.
    destruct (decide (c = j - 1)) as [->|Hc].
    + destruct (C (j - 1) (rebase y p)) as (p' & Hp' & Hout & _).
      { rewrite row_rebase_at, list_lookup_alter_eq, Hp. done. }
      exists p'. split; [done|]. split.
      * intros Hn. exfalso. apply Hn. left.
      * intros _. exists y. by apply Hout.
    + destruct (C c p) as (p' & Hp' & Hout & Hin).
      { rewrite row_rebase_at, list_lookup_alter_ne by done. done. }
      exists p'. split; [done|]. split.
      * intros Hn. apply Hout. intros Hc'. apply Hn. by right.
      * intros Hc'. apply Hin. apply elem_of_cons in Hc' as [?|?]; done.
Qed.

(** ** Putting one series on top of another *)

Lemma stack_onto_lookup s0 s1 j :
  stack_onto s0 s1 !! j =
  p0 ← s0 !! j; p1 ← s1 !! j; Some (p0.2, (p1.2 + p0.2)%Q).
Proof. unfold stack_onto. apply lookup_zip_with. Qed.

Lemma stack_onto_length s0 s1 m :
  length s0 = m → length s1 = m → length (stack_onto s0 s1) = m.
Proof. unfold stack_onto. intros. rewrite length_zip_with. lia. Qed.

Lemma none_loop_length rest : ∀ prev sz,
  length (none_loop rest prev sz) = length sz.
Proof.
  induction rest as [|i rest IH]; intros prev sz; simpl; [done|].
  by rewrite IH, length_insert.
Qed.

Lemma none_loop_other rest : ∀ prev sz k,
  k ∉ rest → row (none_loop rest prev sz) k = row sz k.
Proof.
  induction rest as [|i rest IH]; intros prev sz k Hk; simpl; [done|].
  apply not_elem_of_cons in Hk as [Hki Hk].
  rewrite IH by done. by apply row_insert_ne.
Qed.

Lemma none_loop_rect m rest : ∀ prev sz,
  rect m sz → prev < length sz → Forall (λ i, i < length sz) rest →
  rect m (none_loop rest prev sz).
Proof.
  induction rest as [|i rest IH]; intros prev sz Hr Hp Hf; simpl; [done|].
  apply Forall_cons in Hf as [Hi Hf].
  apply IH.
  - apply rect_insert; [done|].
    apply stack_onto_length; by apply rect_row.
  - by rewrite length_insert.
  - by rewrite length_insert.
Qed.

(** After the loop every series sits on the one before it in the order. *)
Lemma none_loop_chain rest : ∀ prev sz,
  NoDup (prev :: rest) → Forall (λ i, i < length sz) rest →
  ∀ k a b, (prev :: rest) !! k = Some a → (prev :: rest) !! S k = Some b →
           row (none_loop rest prev sz) b =
           stack_onto (row (none_loop rest prev sz) a) (row sz b).
Proof.
  induction rest as [|i rest IH]; intros prev sz Hnd Hf k a b Ha Hb.
  - destruct k; done.
  - apply NoDup_cons in Hnd as [Hprev Hnd].
    pose proof Hnd as Hnd'. apply NoDup_cons in Hnd' as [Hi _].
    apply Forall_cons in Hf as [Hil Hf].
    apply not_elem_of_cons in Hprev as [Hpi Hprev].
    simpl. destruct k as [|k]; simpl in Ha, Hb.
    + injection Ha as <-. injection Hb as <-.
      rewrite !none_loop_other by done.
      rewrite row_insert by done. by rewrite row_insert_ne.
    + rewrite (IH i _ Hnd) with (k := k) (a := a) (b := b); try done.
      * f_equal. apply row_insert_ne.
        intros ->. apply Hi. by apply list_elem_of_lookup_2 in Hb.
      * by rewrite length_insert.
Qed.
(** ** The wiggle offset as a whole

    Whatever baseline the wiggle computes, the first series of the order
    is moved as a whole onto it and every other series is put on the one
    before it. *)
Lemma pred_seq m : (λ j, j - 1) <$> seq 1 m = seq 0 m.
Proof.
  rewrite <- (fmap_S_seq 0 m), <- list_fmap_compose.
  rewrite <- (list_fmap_id (seq 0 m)) at 2.
  apply list_fmap_ext. intros _ j _. simpl. lia.
Qed.

Lemma stackOffsetWiggle_spec sz oz m :
  rect m sz → NoDup oz → Forall (λ i, i < length sz) oz →
  length oz = length sz →
  let out := stackOffsetWiggle sz oz in
  length out = length sz ∧ rect m out ∧
  (∀ j p, row sz (ord oz 0) !! j = Some p →
     ∃ y, row out (ord oz 0) !! j = Some (y, (p.2 + y)%Q)) ∧
  (∀ k a b j pb, oz !! k = Some a → oz !! S k = Some b →
     row sz b !! j = Some pb →
     ∃ pa, row out a !! j = Some pa ∧
           row out b !! j = Some (pa.2, (pb.2 + pa.2)%Q)).
Proof.
  intros Hr Hnd Hlt Hlen. unfold stackOffsetWiggle.
  destruct oz as [|o0 rest].
  { (* no series at all *)
    destruct sz; [|done]. simpl. repeat split; done. }
  apply Forall_cons in Hlt as [Ho0 Hrest].
  assert (ord (o0 :: rest) 0 = o0) as -> by done.
  rewrite (rect_row m sz o0 Hr Ho0).
  assert ((0 <? length sz)%nat = true) as -> by (apply Nat.ltb_lt; lia).
  simpl andb.
  destruct (0 <? m)%nat eqn:Hm.
  2: { (* no datum: every series is empty *)
    apply Nat.ltb_ge in Hm. assert (m = 0) as -> by lia.
    simpl. repeat split; try done.
    - intros j p Hp. apply lookup_lt_Some in Hp.
      rewrite (rect_row 0 sz o0 Hr Ho0) in Hp. lia.
    - intros k a b j pb _ Hb Hp. apply lookup_lt_Some in Hp.
      assert (b < length sz) as Hbl.
      { apply list_elem_of_lookup_2 in Hb.
        rewrite Forall_forall in Hrest. by apply Hrest. }
      rewrite (rect_row 0 sz b Hr Hbl) in Hp. lia. }
  apply Nat.ltb_lt in Hm.
  destruct (wiggle_loop (seq 1 (m - 1)) sz (o0 :: rest) (length sz) 0%Q)
    as [sz1 y] eqn:Hloop.
  destruct (wiggle_loop_spec _ _ _ _ _ _ _ Hloop) as (L1 & R1 & O1 & C1).
  { rewrite pred_seq. apply NoDup_seq. }
  assert (ord (o0 :: rest) 0 = o0) as E0 by done. rewrite E0 in O1, C1.
  set (szW := rebase_at sz1 o0 (m - 1) y).
  assert (length szW = length sz) as LW.
  { unfold szW. by rewrite length_rebase_at. }
  assert (rect m szW) as RW by (apply rect_rebase_at; auto).
  assert (∀ k, o0 ≠ k → row szW k = row sz k) as OW.
  { intros k Hk. unfold szW. rewrite row_rebase_at_ne by done. by apply O1. }
  assert (∀ j p, row sz o0 !! j = Some p →
            ∃ y', row szW o0 !! j = Some (y', (p.2 + y')%Q)) as CW.
  { intros j p Hp. destruct (C1 j p Hp) as (p' & Hp' & Hout & Hin).
    pose proof (lookup_lt_Some _ _ _ Hp) as Hj.
    rewrite (rect_row m sz o0 Hr Ho0) in Hj.
    unfold szW. rewrite row_rebase_at.
    destruct (decide (j = m - 1)) as [->|Hne].
    - rewrite list_lookup_alter_eq, Hp'. simpl. exists y.
      rewrite Hout; [done|]. rewrite pred_seq, elem_of_seq. lia.
    - rewrite list_lookup_alter_ne by done.
      destruct Hin as [yc ->].
      { rewrite pred_seq, elem_of_seq. lia. }
      by exists yc. }
  apply NoDup_cons in Hnd as [Ho0r Hndr].
  unfold stackOffsetNone. rewrite LW.
  destruct (1 <? length sz)%nat eqn:Hn.
  2: { (* a single series *)
    apply Nat.ltb_ge in Hn. simpl in Hlen.
    assert (rest = []) as -> by (destruct rest; [done | simpl in Hlen; lia]).
    repeat split; try done. }
  assert (Forall (λ i, i < length szW) rest) as Hrest'.
  { by rewrite LW. }
  split; [by rewrite none_loop_length|].
  split; [apply none_loop_rect; [done | by rewrite LW | done]|].
  split.
  - intros j p Hp. rewrite none_loop_other by done. by apply CW.
  - intros k a b j pb Ha Hb Hp.
    assert (NoDup (o0 :: rest)) as Hnd' by (by constructor).
    rewrite (none_loop_chain rest o0 szW Hnd' Hrest' k a b Ha Hb).
    assert (b ∈ rest) as Hbr.
    { simpl in Hb. by apply list_elem_of_lookup_2 in Hb. }
    assert (o0 ≠ b) as Hb0 by (intros ->; done).
    rewrite (OW b Hb0). rewrite stack_onto_lookup, Hp.
    assert (a < length sz) as Hal.
    { apply list_elem_of_lookup_2 in Ha.
      apply elem_of_cons in Ha as [->|Ha]; [done|].
      rewrite Forall_forall in Hrest. by apply Hrest. }
    pose proof (lookup_lt_Some _ _ _ Hp) as Hj.
    assert (b < length sz) as Hbl.
    { rewrite Forall_forall in Hrest. by apply Hrest. }
    rewrite (rect_row m sz b Hr Hbl) in Hj.
    assert (rect m (none_loop rest o0 szW)) as Rout.
    { apply none_loop_rect; [done | by rewrite LW | done]. }
    assert (j < length (row (none_loop rest o0 szW) a)) as Hja.
    { rewrite (rect_row m); [done | done |].
      by rewrite none_loop_length, LW. }
    destruct (lookup_lt_is_Some_2 _ _ Hja) as [pa Hpa].
    exists pa. by rewrite Hpa.
Qed.
End Offset.

(* ===================================================================== *)
(** * [d3.stack] with the wiggle offset and the inside-out order *)
(* ===================================================================== *)

Section Stack.
Import D3.
Context {D : Type} (keys : list string) (value : D → string → Q) (data : list D).

Let sz := stack_init keys value data.
Let oz := stackOrderInsideOut sz.
Let out := stackOffsetWiggle sz oz.
Let pos (i : nat) : nat := default 0 (Js.indexOf i oz).

Lemma stack_init_length : length sz = length keys.
Proof. unfold sz, stack_init. by rewrite length_map. Qed.

Lemma stack_init_rect : rect (length data) sz.
Proof.
  unfold sz, stack_init, rect. apply Forall_forall. intros r Hr.
  apply list_elem_of_fmap in Hr as (k & -> & _). by rewrite length_map.
Qed.


Lemma oz_Permutation : oz ≡ₚ seq 0 (length keys).
Proof. unfold oz. rewrite insideOut_Permutation. by rewrite stack_init_length. Qed.

Lemma oz_NoDup : NoDup oz.
Proof. rewrite oz_Permutation. apply NoDup_seq. Qed.

Lemma oz_lt : Forall (λ i, i < length sz) oz.
Proof.
  rewrite oz_Permutation, stack_init_length. apply Forall_forall.
  intros i Hi. apply elem_of_seq in Hi. lia.
Qed.

Lemma oz_length : length oz = length sz.
Proof. by rewrite oz_Permutation, length_seq, stack_init_length. Qed.



Lemma out_spec :
  length out = length keys ∧ rect (length data) out ∧
  (∀ j p, row sz (ord oz 0) !! j = Some p →
     ∃ y, row out (ord oz 0) !! j = Some (y, (p.2 + y)%Q)) ∧
  (∀ k a b j pb, oz !! k = Some a → oz !! S k = Some b →
     row sz b !! j = Some pb →
     ∃ pa, row out a !! j = Some pa ∧
           row out b !! j = Some (pa.2, (pb.2 + pa.2)%Q)).
Proof.
  rewrite <- stack_init_length.
  apply (stackOffsetWiggle_spec sz oz (length data));
    auto using stack_init_rect, oz_NoDup, oz_lt, oz_length.
Qed.

(** The returned series, one per key. *)
Lemma stack_lookup i s :
  stack keys value data !! i = Some s ↔
  ∃ k, keys !! i = Some k ∧ s = Series.mk k (pos i) (row out i).
Proof.
  unfold stack. fold sz. fold oz. fold out.
  rewrite list_lookup_imap.
  destruct out_spec as (Hl & _).
  split.
  - destruct (zip keys out !! i) as [[k r]|] eqn:E; simpl; [|done].
    intros [= <-]. apply lookup_zip_with_Some in E as (k' & r' & [= -> ->] & Hk & Hr).
    exists k'. split; [done|]. by rewrite (row_lookup _ _ _ Hr).
  - intros (k & Hk & ->).
    assert (i < length out) as Hi.
    { rewrite Hl. by apply lookup_lt_Some in Hk. }
    destruct (lookup_lt_is_Some_2 _ _ Hi) as [r Hr].
    assert (zip keys out !! i = Some (k, r)) as ->.
    { apply lookup_zip_with_Some. eauto. }
    simpl. by rewrite (row_lookup _ _ _ Hr).
Qed.

Lemma stack_length : length (stack keys value data) = length keys.
Proof.
  unfold stack. fold sz. fold oz. fold out.
  rewrite length_imap, length_zip_with.
  destruct out_spec as (Hl & _). lia.
Qed.

Lemma stack_keys : map Series.key (stack keys value data) = keys.
Proof.
  apply list_eq. intros i. change (map ?f ?l) with (f <$> l).
  rewrite list_lookup_fmap.
  destruct (keys !! i) as [k|] eqn:Hk.
  - assert (stack keys value data !! i = Some (Series.mk k (pos i) (row out i))) as ->.
    { apply stack_lookup. eauto. }
    done.
  - apply lookup_ge_None in Hk.
    rewrite lookup_ge_None_2; [done|]. by rewrite stack_length.
Qed.






End Stack.

(* ===================================================================== *)
(** * The extent of the stack: [d3.min] and [d3.max] over [series.flat(2)] *)
(* ===================================================================== *)

Section Extent.
Import D3.

Lemma Qlt_bool_true a b : Qlt_bool a b = true → (a < b)%Q.
Proof.
  unfold Qlt_bool. intros H. apply negb_true_iff in H.
  apply Qnot_le_lt. intros Hle. apply Qle_bool_iff in Hle. congruence.
Qed.

Lemma Qlt_bool_false a b : Qlt_bool a b = false → (b <= a)%Q.
Proof.
  unfold Qlt_bool. intros H. apply negb_false_iff in H.
  by apply Qle_bool_iff.
Qed.





End Extent.

(* ===================================================================== *)
(** * [d3.index] *)
(* ===================================================================== *)

Section Group.
Import D3.
Context {V K : Type} `{EqDecision K} (keyof : V → K).
Implicit Types (groups : list (K * list V)) (values seen : list V).






End Group.

Section Index.
Import D3.
Context {V K1 K2 : Type} `{EqDecision K1} `{EqDecision K2}.
Context (key1 : V → K1) (key2 : V → K2).
Implicit Types (values : list V) (idx : list (K1 * list (K2 * V))).




End Index.

(* ===================================================================== *)
(** * Ordinal colour scales *)
(* ===================================================================== *)

Section Ordinal.
Import D3.

Lemma palette_colour_app palette cats more c :
  c ∈ cats →
  Spec.palette_colour palette (cats ++ more) c = Spec.palette_colour palette cats c.
Proof.
  intros Hc. unfold Spec.palette_colour.
  destruct (Js.indexOf c cats) as [i|] eqn:E.
  - by rewrite (indexOf_app_l _ _ more _ E).
  - by apply indexOf_None in E.
Qed.

Lemma fold_Set_add_prefix (ds dom : list string) :
  ∃ more, fold_left Js.Set_add ds dom = dom ++ more.
Proof. rewrite fold_Set_add. eauto. Qed.

Lemma fold_Set_add_elem (ds dom : list string) x :
  x ∈ fold_left Js.Set_add ds dom ↔ x ∈ dom ∨ x ∈ ds.
Proof.
  rewrite fold_Set_add, elem_of_app, list_elem_of_filter, first_seen_elem.
  destruct (decide (x ∈ dom)); tauto.
Qed.

(** A call returns the palette colour at the key's place in the domain,
    after the key has been added to it. *)
Lemma call_spec s d s' c :
  call s d = (s', c) →
  domain s' = Js.Set_add (domain s) d ∧ range s' = range s ∧
  c = Spec.palette_colour (range s) (domain s') d.
Proof.
  unfold call, Js.Set_add, Spec.palette_colour.
  destruct (Js.indexOf d (domain s)) as [i|] eqn:E.
  - intros [= <- <-]. rewrite E.
    rewrite decide_True; [done|].
    apply indexOf_lookup in E. by apply list_elem_of_lookup_2 in E.
  - intros [= <- <-]. simpl. apply indexOf_None in E.
    rewrite decide_False by done. by rewrite (indexOf_app_fresh _ _ E).
Qed.

Lemma call_all_spec ds : ∀ s s' cs,
  call_all s ds = (s', cs) →
  domain s' = fold_left Js.Set_add ds (domain s) ∧ range s' = range s ∧
  cs = map (Spec.palette_colour (range s) (domain s')) ds.
Proof.
  induction ds as [|d ds IH]; intros s s' cs; simpl.
  - by intros [= <- <-].
  - destruct (call s d) as [s1 c] eqn:E1.
    destruct (call_all s1 ds) as [s2 cs'] eqn:E2.
    intros [= <- <-].
    destruct (call_spec _ _ _ _ E1) as (D1 & R1 & ->).
    destruct (IH _ _ _ E2) as (D2 & R2 & ->).
    rewrite D2, D1, R2, R1. repeat split. f_equal.
    destruct (fold_Set_add_prefix ds (Js.Set_add (domain s) d)) as [more ->].
    rewrite palette_colour_app; [done|].
    apply Set_add_elem. by right.
Qed.

(** Calls on keys the domain already holds leave the colours to the
    domain as it was. *)
Lemma call_all_known ds s s' cs :
  call_all s ds = (s', cs) → (∀ d, d ∈ ds → d ∈ domain s) →
  cs = map (Spec.palette_colour (range s) (domain s)) ds.
Proof.
  intros Hc Hin. destruct (call_all_spec _ _ _ _ Hc) as (D & _ & ->).
  rewrite D. destruct (fold_Set_add_prefix ds (domain s)) as [more ->].
  apply map_ext_in. intros d Hd. apply palette_colour_app, Hin.
  by apply list_elem_of_In.
Qed.
End Ordinal.

(* ===================================================================== *)
(** * Colours of the line chart *)
(* ===================================================================== *)

Section LineColours.
Import MedalLineChart.

Lemma filter_first_index_elem (xs : list string) x :
  x ∈ Js.filter_first_index xs → x ∈ xs.
Proof.
  unfold Js.filter_first_index. intros Hx.
  apply list_elem_of_omap in Hx as ([i v] & Hin & Hf).
  apply list_elem_of_lookup in Hin as [k Hk].
  rewrite list_lookup_imap in Hk.
  destruct (xs !! k) as [w|] eqn:E; [|done]. simpl in Hk.
  injection Hk as <- <-. simpl in Hf.
  destruct (decide _); [|done]. injection Hf as <-.
  by apply list_elem_of_lookup_2 in E.
Qed.

Lemma zip_with_map_map {A B C E : Type} (f : A → C → E) (g : B → C)
    (h : A → B) (l : list A) :
  zip_with f l (map g (map h l)) = map (λ x, f x (g (h x))) l.
Proof. induction l as [|x l IH]; simpl; [done|]. by rewrite IH. Qed.

Lemma drawOrder_Permutation fd : drawOrder fd ≡ₚ fd.
Proof. apply sort_Permutation. Qed.

Lemma line_categories_elem fd c :
  c ∈ Spec.line_categories fd ↔ c ∈ map Point.name fd.
Proof.
  unfold Spec.line_categories. rewrite first_seen_elem.
  change (map ?f ?l) with (f <$> l). by rewrite drawOrder_Permutation.
Qed.

(** Every path is stroked, and every legend entry filled, with the
    palette colour of its country's place among the categories. *)
Lemma render_paths fd ks :
  paths (render fd ks) =
  map (λ d, {| stroke := Spec.palette_colour D3.schemeCategory10
                           (Spec.line_categories fd) (Point.name d);
               d := map (λ key, (key, Point.get d key)) ks;
               title := Point.name d |})
      (drawOrder fd).
Proof.
  unfold render.
  destruct (D3.call_all _ (map Point.name (drawOrder fd))) as [color strokes] eqn:E1.
  destruct (D3.call_all color _) as [color' fills] eqn:E2. simpl.
  destruct (call_all_spec _ _ _ _ E1) as (D1 & _ & ->). simpl in D1.
  rewrite D1. fold (Js.Set_from (map Point.name (drawOrder fd))).
  rewrite Set_from_first_seen. fold (Spec.line_categories fd).
  apply zip_with_map_map.
Qed.

Lemma render_legend fd ks :
  legend (render fd ks) =
  imap (λ i c, {| row := i;
                  fill := Spec.palette_colour D3.schemeCategory10
                            (Spec.line_categories fd) c;
                  label := c |})
       (Js.filter_first_index (map Point.name fd)).
Proof.
  unfold render.
  destruct (D3.call_all _ (map Point.name (drawOrder fd))) as [color strokes] eqn:E1.
  destruct (D3.call_all color _) as [color' fills] eqn:E2. simpl.
  destruct (call_all_spec _ _ _ _ E1) as (D1 & R1 & _). simpl in D1, R1.
  fold (Js.Set_from (map Point.name (drawOrder fd))) in D1.
  rewrite Set_from_first_seen in D1. fold (Spec.line_categories fd) in D1.
  rewrite (call_all_known _ _ _ _ E2).
  2: { intros c Hc. rewrite D1. apply line_categories_elem.
       by apply filter_first_index_elem. }
  rewrite D1, R1.
  generalize (Js.filter_first_index (map Point.name fd)). intros names.
  apply list_eq. intros i. rewrite !list_lookup_imap.
  rewrite lookup_zip_with. change (map ?f ?l) with (f <$> l).
  rewrite list_lookup_fmap. by destruct (names !! i).
Qed.
End LineColours.

(* ===================================================================== *)
(** * The stream graph: what is drawn *)
(* ===================================================================== *)

Section StreamRender.
Import GDPStreamGraph.

Lemma render_total gdp sel :
  is_Some (dataByYearAndCountry gdp) → is_Some (render gdp sel).
Proof.
  intros [idx Hidx]. unfold render. rewrite Hidx. simpl.
  destruct (D3.call_all _ _) as [color fills].
  destruct (D3.call_all color _) as [color' swatches]. eauto.
Qed.

Lemma seriesOf_render gdp sel svg :
  render gdp sel = Some svg → is_Some (seriesOf gdp sel).
Proof.
  unfold render, seriesOf.
  destruct (dataByYearAndCountry gdp); [eauto | done].
Qed.

(** The parts of the drawing, spelled out. *)
Lemma render_Some gdp sel svg :
  render gdp sel = Some svg →
  ∃ idx, dataByYearAndCountry gdp = Some idx ∧
    let countries := countriesOf (map parse gdp) sel in
    let series := D3.stack countries value idx in
    let colour := Spec.palette_colour D3.schemeTableau10 (Spec.first_seen countries) in
    yDomain svg = (D3.min (D3.flat2 series), D3.max (D3.flat2 series)) ∧
    areas svg = map (λ s, {| fill := colour (D3.Series.key s);
                             title := D3.Series.key s;
                             band := zip idx.*1 (D3.Series.points s) |}) series ∧
    legend svg = imap (λ i c, {| row := i; swatch := colour c; label := c |})
                      countries.
Proof.
  unfold render. destruct (dataByYearAndCountry gdp) as [idx|] eqn:Hidx; [|done].
  simpl. intros H. exists idx. split; [done|]. revert H.
  set (countries := countriesOf (map parse gdp) sel).
  set (series := D3.stack countries value idx).
  destruct (D3.call_all _ (map D3.Series.key series)) as [color fills] eqn:E1.
  destruct (D3.call_all color countries) as [color' swatches] eqn:E2.
  intros [= <-]. simpl.
  assert (map D3.Series.key series = countries) as Hkeys by apply stack_keys.
  assert (∀ c, c ∈ countries → c ∈ Js.Set_from countries) as Hdom.
  { intros c Hc. rewrite Set_from_first_seen. by apply first_seen_elem. }
  destruct (call_all_spec _ _ _ _ E1) as (D1 & R1 & _). simpl in D1, R1.
  pose proof (call_all_known _ _ _ _ E1) as F1. simpl in F1.
  rewrite Hkeys in F1. specialize (F1 Hdom).
  pose proof (call_all_known _ _ _ _ E2) as F2. rewrite D1, R1 in F2.
  rewrite Hkeys in F2.
  assert (fold_left Js.Set_add countries (Js.Set_from countries) = Js.Set_from countries)
    as Hsame.
  { rewrite fold_Set_add.
    assert (filter (λ y, y ∉ Js.Set_from countries) (Spec.first_seen countries) = [])
      as ->; [|by rewrite app_nil_r].
    apply filter_none. intros c Hc Hn. apply Hn, Hdom.
    by rewrite first_seen_elem in Hc. }
  rewrite Hsame in F2. specialize (F2 Hdom).
  rewrite Set_from_first_seen in F1, F2.
  split; [done|]. split.
  - rewrite F1, <- Hkeys. apply zip_with_map_map.
  - rewrite F2. apply list_eq. intros i. rewrite !list_lookup_imap.
    rewrite lookup_zip_with. change (map ?f ?l) with (f <$> l).
    rewrite list_lookup_fmap. by destruct (countries !! i).
Qed.
End StreamRender.

(* ===================================================================== *)
(** * The stream graph as a state machine *)
(* ===================================================================== *)

Section StreamMachine.
Import GDPStreamGraph.

Lemma stream_commit_commit v c : commit v (commit v c) = commit v c.
Proof. destruct v, c; done. Qed.

Lemma stream_commit_draw v svg c :
  commit v (draw svg (commit v c)) = draw svg (commit v c).
Proof. destruct v, c; done. Qed.

Lemma stream_round_frame s s' :
  round s = Some s' →
  view s ≠ VThrow ∧ query s' = query s ∧
  selectedCountries s' = selectedCountries s ∧ heap s' = heap s ∧
  deps s' = Some (now s) ∧ commit (view s) (svgRef s') = svgRef s'.
Proof.
  unfold round, effect.
  destruct (view s) eqn:Hv; [| |done].
  all: destruct (changed (deps s) (now s)) eqn:Hc;
    [destruct (data (query s)) as [gdpData|];
     [destruct (render _ _) as [svg|]; [|done]|]|];
    simpl; intros [= <-]; simpl; repeat split; try done;
    try (by apply changed_false); by destruct (svgRef s).
Qed.

Lemma stream_view_query s s' : query s' = query s → view s' = view s.
Proof. unfold view. by intros ->. Qed.

Lemma stream_round_idle s :
  view s ≠ VThrow → deps s = Some (now s) →
  commit (view s) (svgRef s) = svgRef s → stable s.
Proof.
  intros Hv Hd Hc. unfold stable, round, effect.
  rewrite Hd, changed_same.
  destruct (view s); [| |done]; rewrite Hc; destruct s;
    unfold now in *; simpl in *; by subst.
Qed.

Lemma stream_round_stable s s' : round s = Some s' → stable s'.
Proof.
  intros Hr. destruct (stream_round_frame _ _ Hr) as (Hv & Q & S & _ & D & C).
  apply stream_round_idle.
  - by rewrite (stream_view_query s s' Q).
  - rewrite D. unfold now. by rewrite Q, S.
  - by rewrite (stream_view_query s s' Q).
Qed.

Lemma stream_stable_inv s :
  stable s →
  view s ≠ VThrow ∧ deps s = Some (now s) ∧ commit (view s) (svgRef s) = svgRef s.
Proof.
  intros Hs. destruct (stream_round_frame _ _ Hs) as (? & _ & _ & _ & ? & ?). done.
Qed.

Lemma stream_run_snoc q es e : run q (es ++ [e]) = run q es ≫= λ s, step s e.
Proof. unfold run. by rewrite foldl_app. Qed.

Lemma stream_handle_fresh s e : fresh s → fresh (handle s e).
Proof.
  unfold fresh, handle. intros ?.
  destruct e, (svgRef s); simpl; lia.
Qed.

Lemma stream_run_invariant q es s : run q es = Some s → stable s ∧ fresh s.
Proof.
  revert s. induction es as [|e es IH] using rev_ind; intros s.
  - unfold run, mount. simpl. intros Hs. split.
    + by apply (stream_round_stable _ _ Hs).
    + destruct (stream_round_frame _ _ Hs) as (_ & _ & S & H & _).
      unfold fresh. rewrite S, H. simpl. lia.
  - rewrite stream_run_snoc. destruct (run q es) as [s0|]; [simpl|done].
    destruct (IH s0 eq_refl) as [_ Hf]. unfold step. intros Hs. split.
    + by apply (stream_round_stable _ _ Hs).
    + destruct (stream_round_frame _ _ Hs) as (_ & _ & S & H & _).
      pose proof (stream_handle_fresh s0 e Hf) as Hf'.
      unfold fresh in *. by rewrite S, H.
Qed.

(** ** Loading and error results *)

Lemma stream_message_view s :
  isLoading (query s) = true ∨ isError (query s) = true →
  view s = VMessage (if isLoading (query s) then "Loading..."
                     else "Error loading data.").
Proof.
  unfold view. destruct (isLoading (query s)), (isError (query s));
    intros [?|?]; done.
Qed.




(** ** While the control is on the page *)

Lemma stream_mounted_view s :
  stable s → svgRef s ≠ NotMounted →
  isLoading (query s) = false ∧ isError (query s) = false ∧
  ∃ d, data (query s) = Some d.
Proof.
  intros Hs Hc. apply stream_stable_inv in Hs as (Hv & _ & Hcm).
  revert Hv Hcm. unfold view.
  destruct (isLoading (query s)), (isError (query s)), (data (query s));
    simpl; intros Hv Hcm; try done; try (by rewrite <- Hcm in Hc); eauto.
Qed.

(** A change of the selection re-runs the effect on the committed
    selection. *)
Lemma stream_change_step s selected d svg :
  stable s → fresh s → svgRef s ≠ NotMounted →
  data (query s) = Some d →
  render (items d) (onChange selected) = Some svg →
  ∃ s', step s (Change selected) = Some s' ∧
        items (selectedCountries s') = onChange selected ∧
        svgRef s' = Mounted (Some svg) ∧ renders s' = S (renders s).
Proof.
  intros Hs Hf Hc Hd Hr.
  destruct (stream_mounted_view s Hs Hc) as (HL & HE & _).
  destruct (stream_stable_inv s Hs) as (_ & Hdeps & _).
  unfold step, handle. destruct (svgRef s) as [|content] eqn:Eref; [done|].
  unfold round, view, effect. simpl. rewrite HL, HE, Hd. simpl.
  assert (changed (deps s) (now {| query := query s;
            selectedCountries := {| ref := heap s; items := onChange selected |};
            deps := deps s; svgRef := Mounted content; heap := S (heap s);
            renders := renders s |}) = true) as ->.
  { rewrite Hdeps. unfold changed, now. simpl. apply bool_decide_eq_true.
    intros E. unfold fresh in Hf. simplify_eq/=. lia. }
  rewrite Hr. simpl. eauto.
Qed.
End StreamMachine.


(* ===================================================================== *)
(** * The line chart: properties of the specification *)
(* ===================================================================== *)

Section LineChartClaims.
Import MedalLineChart Examples Examples.Medals.




(** Claim C4.  With an empty applied country set the transform returns
    what the year filter alone returns, every row of the year; a non-empty
    applied set keeps, of that same result, the points of its countries. *)
Theorem transform_empty_selection_is_no_filter records year :
  transform records year [] = Spec.year_only records year ∧
  ∀ c applied,
    transform records year (c :: applied)
    = filter (λ p, Point.name p ∈ c :: applied) (Spec.year_only records year).
Proof.
  split; [reflexivity|]. intros c applied.
  unfold transform, Spec.year_only. simpl.
  generalize (filter (λ d, Row.Year d = year) records). intros rows.
  induction rows as [|d rows IH]; [done|].
  rewrite filter_cons. destruct (decide (Row.Country d ∈ c :: applied)) as [Hin|Hn].
  - simpl. rewrite filter_cons_True by done. by rewrite IH.
  - simpl. rewrite filter_cons_False by done. exact IH.
Qed.

(** Claim C5.  While the controls are on the page, choosing a year sets
    the applied country selection to the empty array, and the transform
    that follows returns the rows of that year unfiltered by country. *)
Theorem year_change_resets_applied_countries q es s y :
  run q es = Some s → chart s ≠ NotMounted →
  ∃ d s', data (query s) = Some d ∧ step s (ChangeYear y) = Some s' ∧
          selectedYear s' = YNum y ∧
          items (appliedCountries s') = [] ∧
          (y ≠ 0%Z → items (filteredData s') = Spec.year_only (items d) y).
Proof.
  intros Hrun Hc. destruct (run_invariant q es s Hrun) as [Hs Hf].
  destruct (year_step s y Hs Hf Hc) as (d & s' & ? & ? & ? & ? & ?).
  exists d, s'. repeat split; try done.
Qed.

Lemma year_change_resets_applied_countries_witness :
  ∃ s, run (loaded [usa21; chn21; chn16]) [EditCountries ["USA"]; Apply] = Some s ∧
       items (appliedCountries s) = ["USA"] ∧
       chart s ≠ NotMounted ∧
       ∃ d s', data (query s) = Some d ∧ step s (ChangeYear 2016) = Some s' ∧
               selectedYear s' = YNum 2016 ∧
               items (appliedCountries s') = [] ∧
               (2016 ≠ 0 → items (filteredData s') = Spec.year_only (items d) 2016)%Z.
Proof.
  eexists. split; [vm_compute; reflexivity|].
  split; [reflexivity|]. split; [discriminate|].
  apply (year_change_resets_applied_countries
           (loaded [usa21; chn21; chn16]) [EditCountries ["USA"]; Apply]);
    [vm_compute; reflexivity | discriminate].
Defined.

(** Claim C6.  Whatever edits are made to the staged selection, the
    applied selection, the transformed rows, the chart and the number of
    transform and draw runs stay as they were; the staged selection holds
    the last edit, and Apply then copies it into the applied selection. *)
Theorem staged_edits_leave_applied_selection_alone q es s edits :
  run q es = Some s →
  ∃ s', run q (es ++ map EditCountries edits) = Some s' ∧
        appliedCountries s' = appliedCountries s ∧
        filteredData s' = filteredData s ∧ keys s' = keys s ∧
        chart s' = chart s ∧
        transforms s' = transforms s ∧ renders s' = renders s ∧
        (chart s ≠ NotMounted →
         items (selectedCountries s')
           = default (items (selectedCountries s)) (last edits)) ∧
        ∃ s'', step s' Apply = Some s'' ∧
               (chart s ≠ NotMounted →
                appliedCountries s'' = selectedCountries s').
Proof.
  intros Hrun. destruct (run_invariant q es s Hrun) as [Hs _].
  destruct (edits_run s edits Hs)
    as (s' & Hrun' & Hs' & Q & Y & A & F & K & C & T & R & L).
  exists s'. rewrite run_app, Hrun. repeat split; try done.
  destruct (stable_inv s' Hs') as (Hv & _).
  destruct (settle_total (handle s' Apply)) as (s'' & Hset & _ & _ & Happ & _).
  { apply (view_throw s'); [|done]. unfold handle. by destruct (chart s'). }
  exists s''. split; [done|]. intros Hc. rewrite Happ.
  unfold handle. rewrite C. by destruct (chart s).
Qed.

Lemma staged_edits_leave_applied_selection_alone_witness :
  ∃ s, run (loaded [usa21; chn21; chn16]) [] = Some s ∧
  ∃ s', run (loaded [usa21; chn21; chn16])
            ([] ++ map EditCountries [["USA"]; ["USA"; "CHN"]; ["CHN"]]) = Some s' ∧
        appliedCountries s' = appliedCountries s ∧
        filteredData s' = filteredData s ∧ keys s' = keys s ∧
        chart s' = chart s ∧
        transforms s' = transforms s ∧ renders s' = renders s ∧
        (chart s ≠ NotMounted →
         items (selectedCountries s')
           = default (items (selectedCountries s))
                     (last [["USA"]; ["USA"; "CHN"]; ["CHN"]])) ∧
        ∃ s'', step s' Apply = Some s'' ∧
               (chart s ≠ NotMounted →
                appliedCountries s'' = selectedCountries s').
Proof.
  eexists. split; [vm_compute; reflexivity|].
  apply (staged_edits_leave_applied_selection_alone
           (loaded [usa21; chn21; chn16]) []).
  vm_compute. reflexivity.
Defined.

(** Claim C1, evaluated on the code.  The third effect, run on empty
    [filteredData], leaves the chart node as it finds it: it returns
    before it clears the node.  So after the session that applies a
    country without a row in the selected year, the transformed rows are
    empty and the page still holds the path drawn for the previous
    result.  The stream graph, given an empty feed, clears its node and
    draws an empty frame. *)
Theorem empty_result_leaves_previous_paths :
  (∀ snap acc, items (filteredData snap) = [] →
               chart (effect3 snap acc) = chart acc) ∧
  (λ s, (items (appliedCountries s), items (filteredData s), drawn (chart s)))
    <$> run (loaded [usa21; chn16]) empty_result_session
  = Some (["USA"], [], ["CHN"]) ∧
  (λ s, GDP.drawn (GDPStreamGraph.svgRef s))
    <$> GDPStreamGraph.run (loaded GDP.growing) []
  = Some [("A", [(2000%Z, (0%Q, 1%Q)); (2001%Z, ((-6 # 6)%Q, (12 # 6)%Q))])] ∧
  (λ s, GDPStreamGraph.svgRef s)
    <$> GDPStreamGraph.run (loaded GDP.growing)
          [GDPStreamGraph.Fetch
             {| data := Some {| ref := 1; items := [] |};
                isLoading := false; isError := false |}]
  = Some (GDPStreamGraph.Mounted
            (Some {| GDPStreamGraph.xDomain := (None, None);
                     GDPStreamGraph.yDomain := (None, None);
                     GDPStreamGraph.areas := [];
                     GDPStreamGraph.legend := [] |})).
Proof.
  split.
  - intros snap acc Hempty. unfold effect3.
    destruct (changed (deps3 snap) (now3 snap)); [|done].
    simpl. by rewrite Hempty.
  - repeat split; vm_compute; reflexivity.
Qed.
End LineChartClaims.

(* ===================================================================== *)
(** * The stream graph: properties of the specification *)
(* ===================================================================== *)

Section StreamGraphClaims.
Import GDPStreamGraph Examples.

Lemma countriesOf_spec gdp sel :
  countriesOf (map parse gdp) sel
  = if decide (sel = []) then take 10 (Spec.first_seen (map Row.Country gdp))
    else sel.
Proof.
  unfold countriesOf. destruct sel as [|c sel]; simpl; [|done].
  rewrite Set_from_first_seen. by rewrite map_map.
Qed.

Lemma areas_titles gdp sel svg :
  render gdp sel = Some svg →
  map title (areas svg) = countriesOf (map parse gdp) sel ∧
  map fill (areas svg)
  = map (Spec.palette_colour D3.schemeTableau10
           (Spec.first_seen (countriesOf (map parse gdp) sel)))
        (countriesOf (map parse gdp) sel) ∧
  map label (legend svg) = countriesOf (map parse gdp) sel ∧
  map swatch (legend svg)
  = map (Spec.palette_colour D3.schemeTableau10
           (Spec.first_seen (countriesOf (map parse gdp) sel)))
        (countriesOf (map parse gdp) sel).
Proof.
  intros Hr. destruct (render_Some _ _ _ Hr) as (idx & _ & _ & Ha & Hl).
  rewrite Ha, Hl, !map_map. simpl.
  pose proof (stack_keys (countriesOf (map parse gdp) sel) value idx) as Hk.
  repeat split.
  - done.
  - rewrite <- Hk at 3. by rewrite map_map.
  - apply list_eq. intros i. change (map ?f ?l) with (f <$> l).
    rewrite list_lookup_fmap, list_lookup_imap.
    by destruct (_ !! i).
  - apply list_eq. intros i. change (map ?f ?l) with (f <$> l).
    rewrite !list_lookup_fmap, list_lookup_imap.
    by destruct (_ !! i).
Qed.

(** Claim C7.  With an empty selection the stacked series, their
    colours and the legend range over the first ten distinct countries
    of the feed in first-seen order; otherwise over exactly the selected
    countries, in the order selected. *)
Theorem stream_country_universe gdp sel svg :
  render gdp sel = Some svg →
  let universe :=
    if decide (sel = []) then take 10 (Spec.first_seen (map Row.Country gdp))
    else sel in
  let colour :=
    Spec.palette_colour D3.schemeTableau10 (Spec.first_seen universe) in
  map title (areas svg) = universe ∧ map fill (areas svg) = map colour universe ∧
  map label (legend svg) = universe ∧ map swatch (legend svg) = map colour universe.
Proof.
  intros Hr. cbv zeta. rewrite <- countriesOf_spec. by apply areas_titles.
Qed.

Lemma stream_country_universe_witness :
  ∃ svg, render GDP.eleven [] = Some svg ∧
    let universe :=
      if decide (@nil string = []) then take 10 (Spec.first_seen (map Row.Country GDP.eleven))
      else [] in
    let colour :=
      Spec.palette_colour D3.schemeTableau10 (Spec.first_seen universe) in
    map title (areas svg) = universe ∧ map fill (areas svg) = map colour universe ∧
    map label (legend svg) = universe ∧ map swatch (legend svg) = map colour universe.
Proof.
  eexists. split; [vm_compute; reflexivity|].
  apply (stream_country_universe GDP.eleven []). vm_compute. reflexivity.
Defined.

Lemma onChange_All selected : "All" ∈ selected → onChange selected = [].
Proof.
  intros Hin. unfold onChange.
  assert (existsb (λ v, bool_decide (v = "All")) selected = true) as ->; [|done].
  apply existsb_exists. exists "All". split; [by apply list_elem_of_In|].
  by apply bool_decide_eq_true.
Qed.

(** Claim C10.  A change whose options include "All" commits the empty
    selection, and the drawing that follows shows the first ten distinct
    countries of the feed, not all of them. *)
Theorem all_option_falls_back_to_first_ten q es s selected d :
  run q es = Some s → svgRef s ≠ NotMounted → "All" ∈ selected →
  data (query s) = Some d → is_Some (dataByYearAndCountry (items d)) →
  ∃ s' svg, step s (Change selected) = Some s' ∧
            items (selectedCountries s') = [] ∧
            svgRef s' = Mounted (Some svg) ∧
            map title (areas svg)
              = take 10 (Spec.first_seen (map Row.Country (items d))) ∧
            map label (legend svg)
              = take 10 (Spec.first_seen (map Row.Country (items d))) ∧
            length (areas svg) ≤ 10.
Proof.
  intros Hrun Hc Hall Hd Hidx.
  destruct (stream_run_invariant q es s Hrun) as [Hs Hf].
  destruct (render_total (items d) [] Hidx) as [svg Hsvg].
  pose proof (onChange_All selected Hall) as Hon.
  destruct (stream_change_step s selected d svg Hs Hf Hc Hd) as (s' & Hstep & Hsel & Href & _).
  { by rewrite Hon. }
  exists s', svg. rewrite Hon in Hsel.
  destruct (areas_titles _ _ _ Hsvg) as (Ht & _ & Hl & _).
  rewrite countriesOf_spec in Ht, Hl. simpl in Ht, Hl. repeat split; try done.
  rewrite <- (length_map title), Ht, length_take. lia.
Qed.

Lemma all_option_falls_back_to_first_ten_witness :
  ∃ s, run (loaded GDP.eleven) [Change ["K"]] = Some s ∧
       items (selectedCountries s) = ["K"] ∧
       svgRef s ≠ NotMounted ∧ "All" ∈ ["K"; "All"] ∧
       data (query s) = Some {| ref := 0; items := GDP.eleven |} ∧
       is_Some (dataByYearAndCountry GDP.eleven) ∧
       ∃ s' svg, step s (Change ["K"; "All"]) = Some s' ∧
                 items (selectedCountries s') = [] ∧
                 svgRef s' = Mounted (Some svg) ∧
                 map title (areas svg)
                   = take 10 (Spec.first_seen (map Row.Country GDP.eleven)) ∧
                 map label (legend svg)
                   = take 10 (Spec.first_seen (map Row.Country GDP.eleven)) ∧
                 length (areas svg) ≤ 10.
Proof.
  eexists. split; [vm_compute; reflexivity|].
  split; [reflexivity|]. split; [discriminate|].
  assert ("All" ∈ ["K"; "All"]) as Hall by (right; left).
  split; [exact Hall|]. split; [reflexivity|].
  assert (is_Some (dataByYearAndCountry GDP.eleven)) as Hidx.
  { eexists. vm_compute. reflexivity. }
  split; [exact Hidx|].
  apply (all_option_falls_back_to_first_ten
           (loaded GDP.eleven) [Change ["K"]] _ ["K"; "All"]
           {| ref := 0; items := GDP.eleven |});
    [vm_compute; reflexivity | discriminate | exact Hall | reflexivity | exact Hidx].
Defined.
End StreamGraphClaims.

(* ===================================================================== *)
(** * Colour assignment *)
(* ===================================================================== *)

Module Line := MedalLineChart.
Module Stream := GDPStreamGraph.

Section ColourClaims.
Import Examples.


End ColourClaims.

Section ColourWitness.
Import Examples.

End ColourWitness.

(* ===================================================================== *)
(** * Loading and error states *)
(* ===================================================================== *)

Section LoadingClaims.
Import Examples.



End LoadingClaims.

(* ===================================================================== *)
(** * Stacked bands *)
(* ===================================================================== *)

Section StackClaims.
Import Examples.







End StackClaims.


(* ===================================================================== *)
(** * Sorting: order, members, stability *)
(* ===================================================================== *)

Section SortFacts.
Context {A : Type} (cmp : A → A → Z) (R : A → A → Prop).
Hypothesis R_trans : ∀ a b c, R a b → R b c → R a c.
Hypothesis cmp_after : ∀ a b, (0 < cmp a b)%Z → R b a.
Hypothesis cmp_before : ∀ a b, ¬ (0 < cmp a b)%Z → R a b.

Lemma insert_StronglySorted x xs :
  StronglySorted R xs → StronglySorted R (Js.insert cmp x xs).
Proof using R_trans cmp_after cmp_before.
  induction 1 as [|y ys Hs IH Hy]; simpl.
  - repeat constructor.
  - destruct (0 <? cmp x y)%Z eqn:E.
    + apply Z.ltb_lt in E. constructor; [done|].
      rewrite insert_Permutation. constructor; [by apply cmp_after | done].
    + apply Z.ltb_ge in E. assert (R x y) as Hxy by (apply cmp_before; lia).
      constructor; [by constructor|].
      constructor; [done|]. eapply Forall_impl; [exact Hy|].
      intros z Hz. by apply (R_trans x y z).
Qed.

Lemma sort_StronglySorted xs : StronglySorted R (Js.sort cmp xs).
Proof using R_trans cmp_after cmp_before.
  induction xs as [|x xs IH]; [constructor|].
  unfold Js.sort in *. simpl. by apply insert_StronglySorted.
Qed.
End SortFacts.

Section SortStable.
Context {A K : Type} `{EqDecision K} (cmp : A → A → Z) (key : A → K).
Hypothesis cmp_key : ∀ a b, (0 < cmp a b)%Z → key a ≠ key b.

(** Members with one key keep the order they had. *)
Lemma insert_stable k x xs :
  filter (λ a, key a = k) (Js.insert cmp x xs) = filter (λ a, key a = k) (x :: xs).
Proof using cmp_key.
  induction xs as [|y ys IH]; simpl; [done|].
  destruct (0 <? cmp x y)%Z eqn:E; [|done].
  apply Z.ltb_lt in E. pose proof (cmp_key x y E) as Hne.
  rewrite (filter_cons _ y), IH, !(filter_cons _ x), (filter_cons _ y).
  destruct (decide (key x = k)), (decide (key y = k)); try done. congruence.
Qed.

Lemma sort_stable k xs :
  filter (λ a, key a = k) (Js.sort cmp xs) = filter (λ a, key a = k) xs.
Proof using cmp_key.
  induction xs as [|x xs IH]; [done|].
  unfold Js.sort in *. simpl. rewrite insert_stable, !filter_cons, IH. done.
Qed.
End SortStable.

(* ===================================================================== *)
(** * The line chart: what is drawn *)
(* ===================================================================== *)

Section FirstIndex.
Context {A : Type} `{EqDecision A}.
Implicit Types (x : A) (xs pre suf : list A).

Lemma indexOf_middle x pre suf :
  Js.indexOf x (pre ++ x :: suf) = Some (length pre) ↔ x ∉ pre.
Proof.
  split.
  - intros Hi Hin.
    destruct (Js.indexOf x pre) as [i|] eqn:E; [|by apply indexOf_None in E].
    rewrite (indexOf_app_l _ _ (x :: suf) _ E) in Hi. injection Hi as ->.
    apply indexOf_lookup, lookup_lt_Some in E. lia.
  - induction pre as [|y pre IH]; simpl.
    + intros _. by rewrite decide_True.
    + rewrite not_elem_of_cons. intros [Hne Hn].
      rewrite decide_False by done. by rewrite IH.
Qed.

Lemma filter_first_index_from pre suf :
  omap (λ p : nat * A,
          if decide (Js.indexOf p.2 (pre ++ suf) = Some p.1) then Some p.2 else None)
       (imap (λ k x, (length pre + k, x)) suf)
  = filter (λ x, x ∉ pre) (Spec.first_seen suf).
Proof.
  revert pre. induction suf as [|x suf IH]; intros pre; [done|].
  cbn [imap omap Spec.first_seen]. simpl fst. simpl snd.
  rewrite Nat.add_0_r.
  assert (imap ((λ k y, (length pre + k, y)) ∘ S) suf
          = imap (λ k y, (length (pre ++ [x]) + k, y)) suf) as ->.
  { apply imap_ext. intros k y _. simpl. rewrite length_app. simpl. f_equal. lia. }
  replace (pre ++ x :: suf) with ((pre ++ [x]) ++ suf) by (by rewrite <- app_assoc).
  cbn [omap list_omap]. simpl fst. simpl snd.
  rewrite IH. rewrite <- app_assoc. simpl app.
  assert (filter (λ y, y ∉ pre ++ [x]) (Spec.first_seen suf)
          = filter (λ y, y ∉ pre) (filter (λ y, y ≠ x) (Spec.first_seen suf))) as ->.
  { rewrite list_filter_filter. apply list_filter_iff. intros y.
    rewrite not_elem_of_app, list_elem_of_singleton. done. }
  destruct (decide (Js.indexOf x (pre ++ x :: suf) = Some (length pre))) as [Hi|Hi].
  - apply indexOf_middle in Hi. by rewrite filter_cons_True.
  - rewrite filter_cons_False; [done|]. rewrite <- indexOf_middle. done.
Qed.

(** Keeping the values that stand at their own first index is what a [Set]
    does: the distinct values in first-seen order. *)
Lemma filter_first_index_first_seen xs :
  Js.filter_first_index xs = Spec.first_seen xs.
Proof.
  unfold Js.filter_first_index.
  pose proof (filter_first_index_from [] xs) as H. simpl in H.
  rewrite (filter_all _ (Spec.first_seen xs)) in H.
  - rewrite <- H. done.
  - intros y _. apply not_elem_of_nil.
Qed.
End FirstIndex.

Section Drawing.
Import MedalLineChart.

Lemma map_imap_label {A B : Type} (f : nat → A → B) (g : B → A) (l : list A) :
  (∀ i x, g (f i x) = x) → map g (imap f l) = l.
Proof.
  intros Hg. apply list_eq. intros i. change (map ?f ?l) with (f <$> l).
  rewrite list_lookup_fmap, list_lookup_imap.
  destruct (l !! i); simpl; [by rewrite Hg | done].
Qed.

Lemma map_imap_row {A B : Type} (f : nat → A → B) (g : B → nat) (l : list A) :
  (∀ i x, g (f i x) = i) → map g (imap f l) = seq 0 (length l).
Proof.
  intros Hg. apply list_eq. intros i. change (map ?f ?l) with (f <$> l).
  rewrite list_lookup_fmap, list_lookup_imap.
  destruct (l !! i) eqn:E; simpl.
  - rewrite Hg. symmetry. apply lookup_seq. split; [done|].
    by apply lookup_lt_Some in E.
  - symmetry. apply lookup_seq_ge. by apply lookup_ge_None in E.
Qed.

Lemma first_seen_length {A : Type} `{EqDecision A} (xs : list A) :
  length (Spec.first_seen xs) ≤ length xs.
Proof.
  induction xs as [|x xs IH]; simpl; [done|].
  pose proof (length_filter (λ y, y ≠ x) (Spec.first_seen xs)). lia.
Qed.

(** X1.  The legend of the line chart lists every country of the
    transformed rows exactly once, in the order the rows first mention
    it, on consecutive legend rows from 0; a country with several rows
    gets one entry. *)
Theorem legend_lists_each_country_once fd ks :
  map label (legend (render fd ks)) = Spec.first_seen (map Point.name fd) ∧
  map row (legend (render fd ks)) = seq 0 (length (legend (render fd ks))) ∧
  NoDup (map label (legend (render fd ks))) ∧
  (∀ c, c ∈ map label (legend (render fd ks)) ↔ c ∈ map Point.name fd) ∧
  length (legend (render fd ks)) ≤ length fd.
Proof.
  assert (map label (legend (render fd ks)) = Spec.first_seen (map Point.name fd)) as Hl.
  { rewrite render_legend, filter_first_index_first_seen. by apply map_imap_label. }
  split; [done|]. split; [|split; [|split]].
  - rewrite render_legend, length_imap. by apply map_imap_row.
  - rewrite Hl. apply first_seen_NoDup.
  - intros c. rewrite Hl. apply first_seen_elem.
  - rewrite <- (length_map label), Hl, <- (length_map Point.name fd).
    apply first_seen_length.
Qed.

(** X2.  The paths of the line chart are the transformed rows taken by
    ascending Gold: every row gives one path, rows with equal Gold keep
    the order they had, and a path carries the country of its row as title
    and one point per key with the row's value for it, which for the keys
    Gold, Silver and Bronze is always a number. *)
Theorem paths_drawn_by_ascending_gold fd ks :
  drawOrder fd ≡ₚ fd ∧
  StronglySorted (λ a b, (Point.Gold a ≤ Point.Gold b)%Z) (drawOrder fd) ∧
  (∀ g, filter (λ p, Point.Gold p = g) (drawOrder fd)
        = filter (λ p, Point.Gold p = g) fd) ∧
  length (paths (render fd ks)) = length fd ∧
  map title (paths (render fd ks)) = map Point.name (drawOrder fd) ∧
  map d (paths (render fd ks))
    = map (λ p, map (λ key, (key, Point.get p key)) ks) (drawOrder fd) ∧
  map d (paths (render fd uniqueKeys))
    = map (λ p, [("Gold", Some (Point.Gold p)); ("Silver", Some (Point.Silver p));
                 ("Bronze", Some (Point.Bronze p))]) (drawOrder fd).
Proof.
  split; [apply drawOrder_Permutation|]. split; [|split; [|split; [|split; [|split]]]].
  - apply sort_StronglySorted.
    + intros a b c. lia.
    + intros a b. unfold D3.ascending.
      destruct (Point.Gold a <? Point.Gold b)%Z eqn:E1; [lia|].
      destruct (Point.Gold b <? Point.Gold a)%Z eqn:E2; lia.
    + intros a b. unfold D3.ascending.
      destruct (Point.Gold a <? Point.Gold b)%Z eqn:E1; [lia|].
      destruct (Point.Gold b <? Point.Gold a)%Z eqn:E2; lia.
  - intros g. apply sort_stable. intros a b. unfold D3.ascending.
    destruct (Point.Gold a <? Point.Gold b)%Z eqn:E1; [lia|].
    destruct (Point.Gold b <? Point.Gold a)%Z eqn:E2; lia.
  - rewrite render_paths, length_map. apply Permutation_length, drawOrder_Permutation.
  - rewrite render_paths, map_map. done.
  - rewrite render_paths, map_map. done.
  - rewrite render_paths, map_map. done.
Qed.

Lemma palette_colour_lookup palette cats c :
  c ∈ cats →
  ∃ i, cats !! i = Some c ∧
       Spec.palette_colour palette cats c = palette !! (i mod length palette).
Proof.
  intros Hc. destruct (Js.indexOf c cats) as [i|] eqn:E.
  - exists i. split; [by apply indexOf_lookup|].
    unfold Spec.palette_colour. by rewrite E.
  - by apply indexOf_None in E.
Qed.

Lemma palette_colour_distinct palette cats names :
  NoDup palette → NoDup cats → NoDup names → length cats ≤ length palette →
  (∀ c, c ∈ names → c ∈ cats) →
  NoDup (map (Spec.palette_colour palette cats) names) ∧
  Forall is_Some (map (Spec.palette_colour palette cats) names).
Proof.
  intros Hp Hc Hn Hlen Hsub.
  assert (∀ c, c ∈ names →
            ∃ i, cats !! i = Some c ∧ i < length palette ∧
                 Spec.palette_colour palette cats c = palette !! i) as Hcol.
  { intros c Hin. destruct (palette_colour_lookup palette cats c) as (i & Hi & E);
      [by apply Hsub|].
    exists i. pose proof (lookup_lt_Some _ _ _ Hi). split; [done|]. split; [lia|].
    rewrite E. f_equal. apply Nat.mod_small. lia. }
  split.
  - change (map ?f ?l) with (f <$> l). apply NoDup_fmap_2_strong; [|done].
    intros x y Hx Hy Heq.
    destruct (Hcol x Hx) as (i & Hi & Hil & Ei).
    destruct (Hcol y Hy) as (j & Hj & Hjl & Ej).
    rewrite Ei, Ej in Heq.
    destruct (lookup_lt_is_Some_2 palette i Hil) as [p Hpi].
    assert (i = j) as ->.
    { eapply NoDup_lookup; [exact Hp | exact Hpi | by rewrite <- Heq]. }
    congruence.
  - apply Forall_forall. intros o Ho.
    change (map ?f ?l) with (f <$> l) in Ho.
    apply list_elem_of_fmap in Ho as (c & -> & Hin).
    destruct (Hcol c Hin) as (i & _ & Hil & ->).
    by apply lookup_lt_is_Some_2.
Qed.

(** X3.  While the line chart shows at most ten countries, every legend
    entry has a colour and no two entries share one; the path of a country
    is stroked in the colour of its legend entry. *)
Theorem up_to_ten_countries_have_distinct_colours fd ks :
  length (legend (render fd ks)) ≤ 10 →
  NoDup (map fill (legend (render fd ks))) ∧
  Forall is_Some (map fill (legend (render fd ks))) ∧
  Forall (λ p, ∃ l, l ∈ legend (render fd ks) ∧ label l = title p ∧
                    fill l = stroke p)
         (paths (render fd ks)).
Proof.
  intros Hlen.
  assert (NoDup D3.schemeCategory10) as Hpal.
  { apply (bool_decide_unpack _). vm_compute. exact I. }
  assert (map fill (legend (render fd ks))
          = map (Spec.palette_colour D3.schemeCategory10 (Spec.line_categories fd))
                (Spec.first_seen (map Point.name fd))) as Hf.
  { rewrite render_legend, filter_first_index_first_seen.
    generalize (Spec.first_seen (map Point.name fd)). intros names.
    apply list_eq. intros i. change (map ?f ?l) with (f <$> l).
    rewrite !list_lookup_fmap, list_lookup_imap. by destruct (names !! i). }
  assert (Spec.line_categories fd ≡ₚ Spec.first_seen (map Point.name fd)) as Hperm.
  { apply NoDup_Permutation; [apply first_seen_NoDup | apply first_seen_NoDup |].
    intros c. rewrite line_categories_elem. by rewrite first_seen_elem. }
  rewrite render_legend, length_imap, filter_first_index_first_seen in Hlen.
  destruct (palette_colour_distinct D3.schemeCategory10 (Spec.line_categories fd)
              (Spec.first_seen (map Point.name fd))) as [Hnd Hsome].
  - done.
  - apply first_seen_NoDup.
  - apply first_seen_NoDup.
  - rewrite Hperm. exact Hlen.
  - intros c. by rewrite Hperm.
  - rewrite Hf. split; [done|]. split; [done|].
    apply Forall_forall. intros p Hp.
    rewrite render_paths in Hp. change (map ?f ?l) with (f <$> l) in Hp.
    apply list_elem_of_fmap in Hp as (pt & -> & Hpt). simpl.
    assert (Point.name pt ∈ Spec.first_seen (map Point.name fd)) as Hin.
    { apply first_seen_elem. change (map ?f ?l) with (f <$> l).
      apply list_elem_of_fmap. exists pt. split; [done|].
      by rewrite <- (drawOrder_Permutation fd). }
    apply list_elem_of_lookup in Hin as [i Hi].
    eexists. split.
    + rewrite render_legend, filter_first_index_first_seen.
      apply list_elem_of_lookup. exists i. rewrite list_lookup_imap, Hi. done.
    + done.
Qed.

Lemma up_to_ten_countries_have_distinct_colours_witness :
  let fd := transform [Examples.Medals.usa21; Examples.Medals.chn21] 2021 [] in
  length (legend (render fd uniqueKeys)) ≤ 10 ∧
  (NoDup (map fill (legend (render fd uniqueKeys))) ∧
   Forall is_Some (map fill (legend (render fd uniqueKeys))) ∧
   Forall (λ p, ∃ l, l ∈ legend (render fd uniqueKeys) ∧ label l = title p ∧
                     fill l = stroke p)
          (paths (render fd uniqueKeys))).
Proof.
  split; [vm_compute; lia|].
  apply (up_to_ten_countries_have_distinct_colours
           (transform [Examples.Medals.usa21; Examples.Medals.chn21] 2021 [])
           uniqueKeys).
  vm_compute. lia.
Defined.

Lemma StronglySorted_strict {A : Type} (R R' : A → A → Prop) (l : list A) :
  (∀ a b, R a b → a ≠ b → R' a b) →
  StronglySorted R l → NoDup l → StronglySorted R' l.
Proof.
  intros HR. induction 1 as [|x xs Hs IH Hx]; intros Hnd; [constructor|].
  apply NoDup_cons in Hnd as [Hnin Hnd]. constructor; [by apply IH|].
  rewrite Forall_forall in Hx. apply Forall_forall. intros y Hy.
  apply HR; [by apply Hx|]. intros ->. done.
Qed.

Lemma yearsOf_Permutation md :
  yearsOf md ≡ₚ Spec.first_seen (map Row.Year md).
Proof. unfold yearsOf. by rewrite sort_Permutation, Set_from_first_seen. Qed.

Lemma yearsOf_descending md : StronglySorted (λ a b, (b < a)%Z) (yearsOf md).
Proof.
  apply (StronglySorted_strict (λ a b, (b ≤ a)%Z)).
  - intros a b. lia.
  - apply sort_StronglySorted; intros; lia.
  - rewrite yearsOf_Permutation. apply first_seen_NoDup.
Qed.

Lemma yearsOf_elem md y : y ∈ yearsOf md ↔ y ∈ map Row.Year md.
Proof. by rewrite yearsOf_Permutation, first_seen_elem. Qed.

Lemma latestYear_spec md y :
  latestYear md = YNum y ↔
  y ∈ map Row.Year md ∧ ∀ r, r ∈ md → (Row.Year r ≤ y)%Z.
Proof.
  unfold latestYear. pose proof (yearsOf_descending md) as Hs.
  pose proof (yearsOf_elem md) as He.
  destruct (yearsOf md) as [|h t] eqn:E.
  - split; [done|]. intros [Hy _]. apply He in Hy. by apply elem_of_nil in Hy.
  - apply StronglySorted_inv in Hs as [_ Hh]. rewrite Forall_forall in Hh.
    assert (∀ z, z ∈ map Row.Year md → (z ≤ h)%Z) as Hmax.
    { intros z Hz. apply He in Hz. apply elem_of_cons in Hz as [->|Hz]; [lia|].
      apply Hh in Hz. lia. }
    assert (h ∈ map Row.Year md) as Hin by (apply He; left).
    split.
    + intros [= <-]. split; [done|]. intros r Hr. apply Hmax.
      change (map ?f ?l) with (f <$> l). apply list_elem_of_fmap. by exists r.
    + intros [Hy Hall]. f_equal. apply Hmax in Hy as Hle.
      change (map ?f ?l) with (f <$> l) in Hin.
      apply list_elem_of_fmap in Hin as (r & -> & Hr). apply Hall in Hr. lia.
Qed.

(** X4.  The years offered in the year selector, and the year the first
    effect selects: the distinct years of the feed, latest first; the
    selected year is the greatest year of the feed, and [undefined] for an
    empty feed. *)
Theorem years_offered_latest_first md :
  NoDup (yearsOf md) ∧
  StronglySorted (λ a b, (b < a)%Z) (yearsOf md) ∧
  (∀ y, y ∈ yearsOf md ↔ ∃ r, r ∈ md ∧ Row.Year r = y) ∧
  (latestYear md = YUndefined ↔ md = []) ∧
  (∀ y, latestYear md = YNum y ↔
        (∃ r, r ∈ md ∧ Row.Year r = y) ∧ ∀ r, r ∈ md → (Row.Year r ≤ y)%Z) ∧
  latestYear md ≠ YNull.
Proof.
  assert (∀ y, y ∈ map Row.Year md ↔ ∃ r, r ∈ md ∧ Row.Year r = y) as Hmap.
  { intros y. change (map ?f ?l) with (f <$> l). rewrite list_elem_of_fmap.
    split; intros (r & ? & ?); by exists r. }
  split; [|split; [|split; [|split; [|split]]]].
  - rewrite yearsOf_Permutation. apply first_seen_NoDup.
  - apply yearsOf_descending.
  - intros y. by rewrite yearsOf_elem.
  - unfold latestYear. pose proof (yearsOf_elem md) as He.
    destruct (yearsOf md) as [|h t] eqn:E.
    + split; [intros _|done]. destruct md as [|r md]; [done|].
      exfalso. apply (elem_of_nil (Row.Year r)). apply He. simpl. left.
    + split; [done|]. intros ->. assert (h ∈ map Row.Year []) as Hh by (apply He; left).
      by apply elem_of_nil in Hh.
  - intros y. by rewrite latestYear_spec, Hmap.
  - unfold latestYear. by destruct (yearsOf md).
Qed.





End Drawing.

(* ===================================================================== *)
(** * The line chart: from an event to the drawing *)
(* ===================================================================== *)

Section Pipeline.
Import MedalLineChart.

Lemma round_eq s :
  view s ≠ VThrow →
  round s
  = Some (effect3 s (effect2 s (effect1 s (set_chart (commit (view s) (chart s)) s)))).
Proof. unfold round. by destruct (view s). Qed.

Lemma round_fresh_data s s' :
  round s = Some s' → Feed.fresh_data s → Feed.fresh_data s'.
Proof.
  intros Hr [? ?]. apply round_inv in Hr as [_ ->]. unfold Feed.fresh_data.
  unfold effect1, effect2, effect3, set_chart, now2, now3, dataRef; simpl;
    repeat match goal with
           | |- context [changed ?a ?b] => destruct (changed a b) eqn:?; simpl
           | |- context [match data ?q with _ => _ end] =>
               destruct (data q) eqn:?; simpl
           | |- context [match truthy ?y with _ => _ end] =>
               destruct (truthy y) eqn:?; simpl
           end; lia.
Qed.

Lemma settle_fresh_data s s' :
  settle s = Some s' → Feed.fresh_data s → Feed.fresh_data s'.
Proof.
  unfold settle. intros Hs Hf.
  destruct (round s) as [s1|] eqn:R1; [simpl in Hs|done].
  destruct (round s1) as [s2|] eqn:R2; [simpl in Hs|done].
  eauto using round_fresh_data.
Qed.

Lemma handle_fresh_data s e : Feed.fresh_data s → Feed.fresh_data (handle s e).
Proof.
  unfold Feed.fresh_data. intros [? ?].
  destruct e, (chart s) eqn:?; unfold handle; rewrite ?Heqc; simpl; lia.
Qed.

Lemma run_fresh_data q es s : run q es = Some s → Feed.fresh_data s.
Proof.
  revert s. induction es as [|e es IH] using rev_ind; intros s.
  - unfold run, mount. simpl. intros Hs.
    apply (settle_fresh_data _ _ Hs). unfold Feed.fresh_data, init. simpl. lia.
  - rewrite run_snoc. destruct (run q es) as [s0|]; [simpl|done].
    unfold step. intros Hs. apply (settle_fresh_data _ _ Hs).
    by apply handle_fresh_data, IH.
Qed.

(** When only the second effect is due, it runs in the first round, the
    third effect in the second, and then nothing is pending. *)
Lemma pipeline h d y fd dom :
  view h ≠ VThrow → deps1 h = Some (dataRef h) → deps3 h = Some (now3 h) →
  Feed.fresh_data h → changed (deps2 h) (now2 h) = true →
  data (query h) = Some d → truthy (selectedYear h) = Some y →
  fd = transform (items d) y (items (appliedCountries h)) →
  dom = commit (view h) (chart h) →
  ∃ s1 s', round h = Some s1 ∧ round s1 = Some s' ∧ stable s' ∧
    query s' = query h ∧ selectedYear s' = selectedYear h ∧
    selectedCountries s' = selectedCountries h ∧
    appliedCountries s' = appliedCountries h ∧
    filteredData s' = {| ref := heap h; items := fd |} ∧
    keys s' = {| ref := S (heap h); items := uniqueKeys |} ∧
    transforms s' = S (transforms h) ∧ heap s' = S (S (heap h)) ∧
    chart s' = match fd with [] => dom | _ => draw (render fd uniqueKeys) dom end ∧
    renders s' = match fd with [] => renders h | _ => S (renders h) end.
Proof.
  intros Hv H1 H3 [Hf Hk] Hch Hd Ht Hfd Hdom.
  set (s1 := {| query := query h; selectedYear := selectedYear h;
                selectedCountries := selectedCountries h;
                appliedCountries := appliedCountries h;
                filteredData := {| ref := heap h; items := fd |};
                keys := {| ref := S (heap h); items := uniqueKeys |};
                deps1 := deps1 h; deps2 := Some (now2 h); deps3 := deps3 h;
                chart := dom; heap := S (S (heap h));
                transforms := S (transforms h); renders := renders h |}).
  set (s2 := {| query := query h; selectedYear := selectedYear h;
                selectedCountries := selectedCountries h;
                appliedCountries := appliedCountries h;
                filteredData := {| ref := heap h; items := fd |};
                keys := {| ref := S (heap h); items := uniqueKeys |};
                deps1 := deps1 h; deps2 := Some (now2 h);
                deps3 := Some (heap h, S (heap h));
                chart := match fd with
                         | [] => dom
                         | _ => draw (render fd uniqueKeys) dom
                         end;
                heap := S (S (heap h));
                transforms := S (transforms h);
                renders := match fd with [] => renders h | _ => S (renders h) end |}).
  assert (round h = Some s1) as R1.
  { rewrite (round_eq h Hv). f_equal.
    rewrite (effect3_idle _ _ H3), (effect1_idle _ _ H1).
    unfold effect2. cbv zeta. rewrite Hch, Hd, Ht. unfold set_chart, s1. simpl.
    by rewrite Hfd, Hdom. }
  assert (view s1 = view h) as Ev1 by done.
  assert (round s1 = Some s2) as R2.
  { rewrite (round_eq s1) by (by rewrite Ev1). f_equal. rewrite Ev1.
    rewrite (effect1_idle s1) by exact H1.
    rewrite (effect2_idle s1) by done.
    unfold effect3. cbv zeta.
    assert (changed (deps3 s1) (now3 s1) = true) as ->.
    { simpl. rewrite H3. apply bool_decide_eq_true. unfold now3. simpl.
      intros [= E1 E2]. lia. }
    unfold set_chart, s1, s2. cbn [query selectedYear selectedCountries appliedCountries
      filteredData keys deps1 deps2 deps3 chart heap transforms renders items ref now3].
    rewrite Hdom, commit_commit.
    destruct fd; done. }
  exists s1, s2. split; [done|]. split; [done|]. split; [|done].
  apply round_fixed.
  - done.
  - exact H1.
  - done.
  - done.
  - change (view s2) with (view h). unfold s2. simpl. rewrite Hdom.
    destruct fd; [apply commit_commit | apply commit_draw].
Qed.

Lemma settle_pipeline h d y fd dom :
  view h ≠ VThrow → deps1 h = Some (dataRef h) → deps3 h = Some (now3 h) →
  Feed.fresh_data h → changed (deps2 h) (now2 h) = true →
  data (query h) = Some d → truthy (selectedYear h) = Some y →
  fd = transform (items d) y (items (appliedCountries h)) →
  dom = commit (view h) (chart h) →
  ∃ s', settle h = Some s' ∧ stable s' ∧
    query s' = query h ∧ selectedYear s' = selectedYear h ∧
    selectedCountries s' = selectedCountries h ∧
    appliedCountries s' = appliedCountries h ∧
    filteredData s' = {| ref := heap h; items := fd |} ∧
    keys s' = {| ref := S (heap h); items := uniqueKeys |} ∧
    transforms s' = S (transforms h) ∧ heap s' = S (S (heap h)) ∧
    chart s' = match fd with [] => dom | _ => draw (render fd uniqueKeys) dom end ∧
    renders s' = match fd with [] => renders h | _ => S (renders h) end.
Proof.
  intros Hv H1 H3 Hf Hch Hd Ht Hfd Hdom.
  destruct (pipeline h d y fd dom) as (s1 & s' & R1 & R2 & Hs & P); try done.
  exists s'. split; [|done]. unfold settle. rewrite R1. simpl. rewrite R2. simpl.
  exact Hs.
Qed.
End Pipeline.

Section Sessions.
Import MedalLineChart.

Lemma changed_None {D : Type} `{EqDecision D} (now : D) : changed None now = true.
Proof. by apply bool_decide_eq_true. Qed.

Lemma year_rows_nonempty md y : y ∈ yearsOf md ↔ Spec.year_only md y ≠ [].
Proof.
  rewrite yearsOf_elem. unfold Spec.year_only.
  change (map ?f ?l) with (f <$> l). rewrite list_elem_of_fmap. split.
  - intros (r & -> & Hr) E. apply fmap_nil_inv in E.
    assert (r ∈ filter (λ d, Row.Year d = Row.Year r) md) as Hin
      by (by apply list_elem_of_filter).
    rewrite E in Hin. by apply elem_of_nil in Hin.
  - intros Hne. destruct (filter (λ d, Row.Year d = y) md) as [|r rs] eqn:E; [done|].
    assert (r ∈ filter (λ d, Row.Year d = y) md) as Hin by (rewrite E; left).
    apply list_elem_of_filter in Hin as [? ?]. by exists r.
Qed.

Lemma view_throw_iff s : view s = VThrow ↔ Feed.no_result (query s).
Proof.
  unfold view, Feed.no_result.
  destruct (isLoading (query s)), (isError (query s)), (data (query s));
    split; try done; intros (? & ? & ?); done.
Qed.

(** A render with every dependency unchanged only commits the view. *)
Lemma settle_idle h :
  view h ≠ VThrow → deps1 h = Some (dataRef h) → deps2 h = Some (now2 h) →
  deps3 h = Some (now3 h) →
  settle h = Some (set_chart (commit (view h) (chart h)) h).
Proof.
  intros Hv H1 H2 H3.
  assert (round h = Some (set_chart (commit (view h) (chart h)) h)) as R1.
  { rewrite (round_eq h Hv).
    by rewrite (effect3_idle _ _ H3), (effect2_idle _ _ H2), (effect1_idle _ _ H1). }
  assert (stable (set_chart (commit (view h) (chart h)) h)) as Hs.
  { apply round_fixed; try done. simpl.
    change (view (set_chart _ h)) with (view h). apply commit_commit. }
  unfold settle. rewrite R1. simpl. rewrite Hs. simpl. exact Hs.
Qed.

(** The first round after mounting on a result that carries data. *)
Lemma mount_round q d :
  data q = Some d →
  round (init q)
  = Some {| query := q; selectedYear := latestYear (items d);
            selectedCountries := {| ref := 0; items := [] |};
            appliedCountries := {| ref := 1; items := [] |};
            filteredData := {| ref := 2; items := [] |};
            keys := {| ref := 3; items := [] |};
            deps1 := Some (Some (ref d));
            deps2 := Some (Some (ref d), YNull, 1);
            deps3 := Some (2, 3);
            chart := commit (view (init q)) NotMounted;
            heap := 4; transforms := 0; renders := 0 |}.
Proof.
  intros Hd. rewrite round_eq.
  2: { intros E. apply view_throw_iff in E as (_ & _ & E). simpl in E. congruence. }
  f_equal. unfold effect3, effect2, effect1, now2, now3, dataRef. cbv zeta.
  cbn [init query selectedYear selectedCountries appliedCountries filteredData keys
       deps1 deps2 deps3 chart heap transforms renders set_chart items ref].
  rewrite !changed_None, Hd. simpl. done.
Qed.

Lemma latestYear_not_null md : latestYear md ≠ YNull.
Proof. unfold latestYear. by destruct (yearsOf md). Qed.

Lemma latestYear_offered md y : latestYear md = YNum y → y ∈ yearsOf md.
Proof.
  unfold latestYear. destruct (yearsOf md); [done|]. intros [= ->]. left.
Qed.

Lemma mount_spec q d :
  data q = Some d →
  ∃ s, mount q = Some s ∧ stable s ∧ query s = q ∧
       selectedYear s = latestYear (items d) ∧
       items (appliedCountries s) = [] ∧
       match truthy (latestYear (items d)) with
       | Some y =>
           items (filteredData s) = Spec.year_only (items d) y ∧
           chart s = draw (render (Spec.year_only (items d) y) uniqueKeys)
                          (commit (view (init q)) NotMounted) ∧
           transforms s = 1 ∧ renders s = 1
       | None =>
           items (filteredData s) = [] ∧
           chart s = commit (view (init q)) NotMounted ∧
           transforms s = 0 ∧ renders s = 0
       end.
Proof.
  intros Hd. pose proof (mount_round q d Hd) as R1.
  set (s1 := {| query := q; selectedYear := latestYear (items d);
                selectedCountries := {| ref := 0; items := [] |};
                appliedCountries := {| ref := 1; items := [] |};
                filteredData := {| ref := 2; items := [] |};
                keys := {| ref := 3; items := [] |};
                deps1 := Some (Some (ref d));
                deps2 := Some (Some (ref d), YNull, 1);
                deps3 := Some (2, 3);
                chart := commit (view (init q)) NotMounted;
                heap := 4; transforms := 0; renders := 0 |}) in *.
  assert (view s1 ≠ VThrow) as Hv.
  { intros E. apply view_throw_iff in E as (_ & _ & E). simpl in E. congruence. }
  assert (deps1 s1 = Some (dataRef s1)) as H1.
  { unfold dataRef. simpl. by rewrite Hd. }
  assert (changed (deps2 s1) (now2 s1) = true) as Hch.
  { apply bool_decide_eq_true. unfold now2. simpl. intros [= _ E].
    by apply (latestYear_not_null (items d)). }
  assert (commit (view s1) (chart s1) = chart s1) as Hcm.
  { simpl. rewrite (commit_query (init q) s1) by done. apply commit_commit. }
  destruct (truthy (latestYear (items d))) as [y|] eqn:Ht.
  - destruct (pipeline s1 d y (Spec.year_only (items d) y) (chart s1))
      as (s2 & s' & R2 & R3 & Hs & Q & Y & _ & A & F & _ & T & _ & C & R);
      try done.
    { unfold Feed.fresh_data. simpl. lia. }
    exists s'. split.
    { unfold mount, settle. rewrite R1. simpl. rewrite R2. simpl. exact R3. }
    split; [done|]. split; [done|]. split; [done|]. split; [by rewrite A|].
    assert (Spec.year_only (items d) y ≠ []) as Hne.
    { apply year_rows_nonempty, latestYear_offered.
      destruct (latestYear (items d)) as [| |y']; try done. simpl in Ht.
      destruct (decide (y' = 0%Z)); congruence. }
    rewrite F, C, T, R.
    destruct (Spec.year_only (items d) y); done.
  - set (s2 := {| query := q; selectedYear := latestYear (items d);
                  selectedCountries := {| ref := 0; items := [] |};
                  appliedCountries := {| ref := 1; items := [] |};
                  filteredData := {| ref := 2; items := [] |};
                  keys := {| ref := 3; items := [] |};
                  deps1 := Some (Some (ref d));
                  deps2 := Some (now2 s1);
                  deps3 := Some (2, 3);
                  chart := commit (view (init q)) NotMounted;
                  heap := 4; transforms := 0; renders := 0 |}).
    assert (round s1 = Some s2) as R2.
    { rewrite (round_eq s1 Hv). f_equal.
      rewrite (effect3_idle s1) by done. rewrite (effect1_idle s1 _ H1).
      unfold effect2. cbv zeta. rewrite Hch. unfold set_chart.
      cbn [query selectedYear s1]. rewrite Hd, Ht. rewrite Hcm. done. }
    assert (stable s2) as Hs.
    { apply round_fixed; done. }
    exists s2. split.
    { unfold mount, settle. rewrite R1. simpl. rewrite R2. simpl. exact Hs. }
    done.
Qed.

(** X6.  Mounted on a feed with no flag set, the component selects the
    latest year of the feed, transforms the rows of that year with no
    country filter, and draws them once: one run of the transform and one
    of the drawing code.  An empty feed, or one whose latest year is 0,
    leaves the chart node empty. *)
Theorem mount_draws_the_latest_year q d :
  isLoading q = false → isError q = false → data q = Some d →
  ∃ s, mount q = Some s ∧ selectedYear s = latestYear (items d) ∧
       items (appliedCountries s) = [] ∧
       (truthy (latestYear (items d)) = None ↔
        items d = [] ∨ latestYear (items d) = YNum 0) ∧
       match truthy (latestYear (items d)) with
       | Some y =>
           items (filteredData s) = Spec.year_only (items d) y ∧
           items (filteredData s) ≠ [] ∧
           chart s = Mounted (Some (render (Spec.year_only (items d) y) uniqueKeys)) ∧
           transforms s = 1 ∧ renders s = 1
       | None =>
           items (filteredData s) = [] ∧ chart s = Mounted None ∧
           transforms s = 0 ∧ renders s = 0
       end.
Proof.
  intros HL HE Hd. destruct (mount_spec q d Hd) as (s & Hm & _ & _ & Y & A & P).
  assert (commit (view (init q)) NotMounted = Mounted None) as Hc.
  { unfold view. simpl. by rewrite HL, HE, Hd. }
  exists s. split; [done|]. split; [done|]. split; [done|]. split.
  - unfold latestYear. pose proof (yearsOf_elem (items d)) as He.
    destruct (yearsOf (items d)) as [|h t] eqn:E; simpl.
    + split; [intros _; left|done]. destruct (items d) as [|r rs]; [done|].
      exfalso. apply (elem_of_nil (Row.Year r)). apply He. left.
    + destruct (decide (h = 0%Z)) as [->|Hne].
      * split; [by right|done].
      * split; [done|]. intros [E0|[= ?]]; [|done].
        rewrite E0 in He. assert (h ∈ @nil Z) as Hh by (apply He; left).
        by apply elem_of_nil in Hh.
  - destruct (truthy (latestYear (items d))) as [y|] eqn:Ht.
    + destruct P as (F & C & T & R). rewrite F, C, Hc. repeat split; try done.
      apply year_rows_nonempty, latestYear_offered.
      destruct (latestYear (items d)) as [| |y']; try done. simpl in Ht.
      destruct (decide (y' = 0%Z)); congruence.
    + destruct P as (F & C & T & R). by rewrite C, Hc.
Qed.

Lemma mount_draws_the_latest_year_witness :
  let q := Examples.loaded [Examples.Medals.usa21; Examples.Medals.chn21;
                            Examples.Medals.chn16] in
  let d := {| ref := 0; items := [Examples.Medals.usa21; Examples.Medals.chn21;
                                  Examples.Medals.chn16] |} in
  isLoading q = false ∧ isError q = false ∧ data q = Some d ∧
  ∃ s, mount q = Some s ∧ selectedYear s = latestYear (items d) ∧
       items (appliedCountries s) = [] ∧
       (truthy (latestYear (items d)) = None ↔
        items d = [] ∨ latestYear (items d) = YNum 0) ∧
       match truthy (latestYear (items d)) with
       | Some y =>
           items (filteredData s) = Spec.year_only (items d) y ∧
           items (filteredData s) ≠ [] ∧
           chart s = Mounted (Some (render (Spec.year_only (items d) y) uniqueKeys)) ∧
           transforms s = 1 ∧ renders s = 1
       | None =>
           items (filteredData s) = [] ∧ chart s = Mounted None ∧
           transforms s = 0 ∧ renders s = 0
       end.
Proof.
  split; [reflexivity|]. split; [reflexivity|]. split; [reflexivity|].
  apply mount_draws_the_latest_year; reflexivity.
Defined.

Lemma draw_mounted svg c : c ≠ NotMounted → draw svg c = Mounted (Some svg).
Proof. by destruct c. Qed.

(** What a handler that changes only the dependencies of the second
    effect leads to, from a settled state with the chart on the page. *)
Lemma handler_pipeline s h d y :
  stable s → Feed.fresh_data s → chart s ≠ NotMounted →
  data (query s) = Some d → truthy (selectedYear h) = Some y →
  query h = query s → deps1 h = deps1 s → deps2 h = deps2 s → deps3 h = deps3 s →
  filteredData h = filteredData s → keys h = keys s → chart h = chart s →
  heap s ≤ heap h → now2 h ≠ now2 s →
  ∃ s', settle h = Some s' ∧ stable s' ∧
    query s' = query h ∧ selectedYear s' = selectedYear h ∧
    selectedCountries s' = selectedCountries h ∧
    appliedCountries s' = appliedCountries h ∧
    items (filteredData s') = transform (items d) y (items (appliedCountries h)) ∧
    transforms s' = S (transforms h) ∧
    match transform (items d) y (items (appliedCountries h)) with
    | [] => chart s' = chart s ∧ renders s' = renders h
    | fd => chart s' = Mounted (Some (render fd uniqueKeys)) ∧
            renders s' = S (renders h)
    end.
Proof.
  intros Hs [Hf Hk] Hc Hd Ht Q D1 D2 D3' F K C Hh Hn.
  destruct (stable_inv s Hs) as (Hv & H1 & H2 & H3 & Hcm).
  destruct (settle_pipeline h d y
              (transform (items d) y (items (appliedCountries h)))
              (commit (view h) (chart h)))
    as (s' & Hset & Hs' & Q' & Y' & S' & A' & F' & _ & T' & _ & C' & R');
    try done.
  - by apply (view_throw s).
  - rewrite D1, H1. unfold dataRef. by rewrite Q.
  - rewrite D3', H3. unfold now3. by rewrite F, K.
  - unfold Feed.fresh_data. rewrite F, K. lia.
  - apply bool_decide_eq_true. rewrite D2, H2. congruence.
  - by rewrite Q.
  - exists s'. split; [done|]. split; [done|].
    split; [done|]. split; [done|]. split; [done|]. split; [done|].
    split; [by rewrite F'|]. split; [done|].
    rewrite (commit_query s h) in C' by done. rewrite C, Hcm in C'.
    destruct (transform (items d) y (items (appliedCountries h))); [done|].
    split; [|done]. rewrite C'. by apply draw_mounted.
Qed.

(** X7.  Staging a country selection and pressing Apply transforms the
    rows of the selected year for exactly the staged countries.  When some
    row remains the chart is redrawn with those rows; when none does the
    chart keeps what it showed.  Pressing Apply again changes nothing. *)
Theorem apply_filters_by_staged_countries q es s l y :
  run q es = Some s → chart s ≠ NotMounted → truthy (selectedYear s) = Some y →
  ∃ d s', data (query s) = Some d ∧
    run q (es ++ [EditCountries l; Apply]) = Some s' ∧
    selectedYear s' = selectedYear s ∧
    items (appliedCountries s') = l ∧
    items (filteredData s') = transform (items d) y l ∧
    transforms s' = S (transforms s) ∧
    match transform (items d) y l with
    | [] => chart s' = chart s ∧ renders s' = renders s
    | fd => chart s' = Mounted (Some (render fd uniqueKeys)) ∧
            renders s' = S (renders s)
    end ∧
    step s' Apply = Some s'.
Proof.
  intros Hrun Hc Ht.
  destruct (run_invariant q es s Hrun) as [Hs [Hfs Hfa]].
  pose proof (run_fresh_data q es s Hrun) as Hfd.
  destruct (mounted_view s Hs Hc) as (HL & HE & d & Hd).
  destruct (stable_inv s Hs) as (Hv & H1 & H2 & H3 & Hcm).
  destruct (edit_step s l Hs) as [Hstep Hs1].
  set (h1 := handle s (EditCountries l)) in *.
  assert (h1 = {| query := query s; selectedYear := selectedYear s;
                  selectedCountries := {| ref := heap s; items := l |};
                  appliedCountries := appliedCountries s;
                  filteredData := filteredData s; keys := keys s;
                  deps1 := deps1 s; deps2 := deps2 s; deps3 := deps3 s;
                  chart := chart s; heap := S (heap s);
                  transforms := transforms s; renders := renders s |}) as Eh1.
  { unfold h1, handle. by destruct (chart s). }
  set (h2 := handle h1 Apply).
  assert (h2 = {| query := query s; selectedYear := selectedYear s;
                  selectedCountries := {| ref := heap s; items := l |};
                  appliedCountries := {| ref := heap s; items := l |};
                  filteredData := filteredData s; keys := keys s;
                  deps1 := deps1 s; deps2 := deps2 s; deps3 := deps3 s;
                  chart := chart s; heap := S (heap s);
                  transforms := transforms s; renders := renders s |}) as Eh2.
  { unfold h2, handle. rewrite Eh1. simpl. by destruct (chart s). }
  destruct (handler_pipeline s h2 d y) as
    (s' & Hset & Hs' & Q' & Y' & S' & A' & F' & T' & C'); try done;
    try (by rewrite Eh2).
  { rewrite Eh2. simpl. lia. }
  { rewrite Eh2. unfold now2. simpl. intros [= E]. lia. }
  rewrite Eh2 in Y', S', A', F', T', C'. simpl in Y', S', A', F', T', C'.
  exists d, s'. split; [done|]. split.
  { rewrite run_app, Hrun. simpl. rewrite Hstep. simpl. exact Hset. }
  split; [done|]. split; [by rewrite A'|]. split; [done|]. split; [done|].
  split; [done|].
  unfold step. assert (handle s' Apply = s') as ->; [|by apply settle_fixed].
  assert (selectedCountries s' = appliedCountries s') as E by congruence.
  clear -E. unfold handle.
  destruct s' as [? ? ? ? ? ? ? ? ? c ? ? ?]; simpl in *. subst. by destruct c.
Qed.

Lemma apply_filters_by_staged_countries_witness :
  ∃ s, run (Examples.loaded [Examples.Medals.usa21; Examples.Medals.chn21;
                             Examples.Medals.chn16]) [] = Some s ∧
    chart s ≠ NotMounted ∧ truthy (selectedYear s) = Some 2021%Z ∧
    ∃ d s', data (query s) = Some d ∧
      run (Examples.loaded [Examples.Medals.usa21; Examples.Medals.chn21;
                            Examples.Medals.chn16])
          ([] ++ [EditCountries ["CHN"]; Apply]) = Some s' ∧
      selectedYear s' = selectedYear s ∧
      items (appliedCountries s') = ["CHN"] ∧
      items (filteredData s') = transform (items d) 2021 ["CHN"] ∧
      transforms s' = S (transforms s) ∧
      match transform (items d) 2021 ["CHN"] with
      | [] => chart s' = chart s ∧ renders s' = renders s
      | fd => chart s' = Mounted (Some (render fd uniqueKeys)) ∧
              renders s' = S (renders s)
      end ∧
      step s' Apply = Some s'.
Proof.
  eexists. split; [vm_compute; reflexivity|]. split; [done|].
  split; [reflexivity|].
  apply (apply_filters_by_staged_countries _ [] _ ["CHN"] 2021%Z);
    [vm_compute; reflexivity | done | reflexivity].
Defined.

(** X8.  Choosing a year (other than 0) always runs the transform again,
    with no country filter.  A year the selector offers has rows, and the
    chart is redrawn with them; for any other year the rows are empty and
    the chart keeps what it showed. *)
Theorem choosing_a_year_redraws_its_rows q es s y :
  run q es = Some s → chart s ≠ NotMounted → y ≠ 0%Z →
  ∃ d s', data (query s) = Some d ∧ step s (ChangeYear y) = Some s' ∧
    items (filteredData s') = Spec.year_only (items d) y ∧
    transforms s' = S (transforms s) ∧
    (y ∈ yearsOf (items d) →
     items (filteredData s') ≠ [] ∧
     chart s' = Mounted (Some (render (Spec.year_only (items d) y) uniqueKeys)) ∧
     renders s' = S (renders s)) ∧
    (y ∉ yearsOf (items d) →
     items (filteredData s') = [] ∧ chart s' = chart s ∧ renders s' = renders s).
Proof.
  intros Hrun Hc Hy.
  destruct (run_invariant q es s Hrun) as [Hs [Hfs Hfa]].
  pose proof (run_fresh_data q es s Hrun) as Hfd.
  destruct (mounted_view s Hs Hc) as (HL & HE & d & Hd).
  set (h := handle s (ChangeYear y)).
  assert (h = {| query := query s; selectedYear := YNum y;
                 selectedCountries := selectedCountries s;
                 appliedCountries := {| ref := heap s; items := [] |};
                 filteredData := filteredData s; keys := keys s;
                 deps1 := deps1 s; deps2 := deps2 s; deps3 := deps3 s;
                 chart := chart s; heap := S (heap s);
                 transforms := transforms s; renders := renders s |}) as Eh.
  { unfold h, handle. by destruct (chart s). }
  destruct (handler_pipeline s h d y) as
    (s' & Hset & Hs' & Q' & Y' & S' & A' & F' & T' & C'); try done;
    try (by rewrite Eh).
  { rewrite Eh. simpl. by rewrite decide_False. }
  { rewrite Eh. simpl. lia. }
  { rewrite Eh. unfold now2. simpl. intros [= _ E]. lia. }
  rewrite Eh in F', T', C'. simpl in F', T', C'.
  change (transform (items d) y []) with (Spec.year_only (items d) y) in *.
  exists d, s'. split; [done|]. split; [done|]. split; [done|]. split; [done|].
  rewrite F'. split.
  - intros Hin. apply year_rows_nonempty in Hin.
    destruct (Spec.year_only (items d) y); done.
  - intros Hnin. rewrite year_rows_nonempty in Hnin.
    destruct (Spec.year_only (items d) y); [done|]. by destruct Hnin.
Qed.

Lemma choosing_a_year_redraws_its_rows_witness :
  ∃ s, run (Examples.loaded [Examples.Medals.usa21; Examples.Medals.chn21;
                             Examples.Medals.chn16]) [EditCountries ["USA"]; Apply]
       = Some s ∧
    chart s ≠ NotMounted ∧ 2016%Z ≠ 0%Z ∧
    ∃ d s', data (query s) = Some d ∧ step s (ChangeYear 2016) = Some s' ∧
      items (filteredData s') = Spec.year_only (items d) 2016 ∧
      transforms s' = S (transforms s) ∧
      (2016%Z ∈ yearsOf (items d) →
       items (filteredData s') ≠ [] ∧
       chart s' = Mounted (Some (render (Spec.year_only (items d) 2016) uniqueKeys)) ∧
       renders s' = S (renders s)) ∧
      (2016%Z ∉ yearsOf (items d) →
       items (filteredData s') = [] ∧ chart s' = chart s ∧ renders s' = renders s).
Proof.
  eexists. split; [vm_compute; reflexivity|]. split; [done|]. split; [done|].
  apply (choosing_a_year_redraws_its_rows
           (Examples.loaded [Examples.Medals.usa21; Examples.Medals.chn21;
                             Examples.Medals.chn16])
           [EditCountries ["USA"]; Apply]);
    [vm_compute; reflexivity | done | done].
Defined.

(** X9.  A result with a flag set takes the chart node off the page; when
    the next result has no flag and still carries the same data object,
    the node comes back empty and no effect runs, because no dependency
    changed: the rows in state are the ones drawn before, and the chart
    stays blank. *)
Theorem chart_is_blank_after_a_message q es s qf qb :
  run q es = Some s → chart s ≠ NotMounted →
  isLoading qf = true ∨ isError qf = true → data qf = data (query s) →
  isLoading qb = false → isError qb = false → data qb = data (query s) →
  ∃ s1 s2, step s (Fetch qf) = Some s1 ∧ chart s1 = NotMounted ∧
    step s1 (Fetch qb) = Some s2 ∧ chart s2 = Mounted None ∧
    filteredData s2 = filteredData s ∧ selectedYear s2 = selectedYear s ∧
    transforms s2 = transforms s ∧ renders s2 = renders s.
Proof.
  intros Hrun Hc Hf Hdf HL HE Hdb.
  destruct (run_invariant q es s Hrun) as [Hs _].
  destruct (mounted_view s Hs Hc) as (_ & _ & d & Hd).
  destruct (stable_inv s Hs) as (Hv & H1 & H2 & H3 & Hcm).
  set (h1 := handle s (Fetch qf)).
  assert (view h1 = VMessage (if isLoading qf then "Loading..."
                              else "Failed to load data.")) as Ev1.
  { by apply (message_view h1). }
  assert (settle h1 = Some (set_chart NotMounted h1)) as R1.
  { rewrite (settle_idle h1).
    - by rewrite Ev1.
    - by rewrite Ev1.
    - unfold dataRef. simpl. by rewrite Hdf.
    - unfold now2, dataRef. simpl. by rewrite Hdf.
    - done. }
  set (h2 := handle (set_chart NotMounted h1) (Fetch qb)).
  assert (view h2 ≠ VThrow) as Hv2.
  { intros E. apply view_throw_iff in E as (_ & _ & E). simpl in E. congruence. }
  assert (commit (view h2) (chart h2) = Mounted None) as Ec2.
  { unfold view. simpl. rewrite HL, HE, Hdb, Hd. done. }
  assert (settle h2 = Some (set_chart (Mounted None) h2)) as R2.
  { rewrite (settle_idle h2).
    - by rewrite Ec2.
    - done.
    - unfold dataRef. simpl. by rewrite Hdb.
    - unfold now2, dataRef. simpl. by rewrite Hdb.
    - done. }
  exists (set_chart NotMounted h1), (set_chart (Mounted None) h2).
  repeat split; done.
Qed.

Lemma chart_is_blank_after_a_message_witness :
  let rows := [Examples.Medals.usa21; Examples.Medals.chn21] in
  ∃ s, run (Examples.loaded rows) [] = Some s ∧ chart s ≠ NotMounted ∧
    (isLoading (Examples.failed_with rows) = true ∨
     isError (Examples.failed_with rows) = true) ∧
    data (Examples.failed_with rows) = data (query s) ∧
    isLoading (Examples.loaded rows) = false ∧
    isError (Examples.loaded rows) = false ∧
    data (Examples.loaded rows) = data (query s) ∧
    ∃ s1 s2, step s (Fetch (Examples.failed_with rows)) = Some s1 ∧
      chart s1 = NotMounted ∧
      step s1 (Fetch (Examples.loaded rows)) = Some s2 ∧ chart s2 = Mounted None ∧
      filteredData s2 = filteredData s ∧ selectedYear s2 = selectedYear s ∧
      transforms s2 = transforms s ∧ renders s2 = renders s.
Proof.
  eexists. split; [vm_compute; reflexivity|]. split; [done|].
  split; [by right|]. split; [reflexivity|]. split; [reflexivity|].
  split; [reflexivity|]. split; [reflexivity|].
  apply (chart_is_blank_after_a_message
           (Examples.loaded [Examples.Medals.usa21; Examples.Medals.chn21]) []);
    [vm_compute; reflexivity | done | by right | reflexivity..].
Defined.

(** X10.  The line chart throws in exactly one situation: the hook hands
    it a result with neither flag nor data, at mount or in a later fetch,
    where the render calls [medalsData.map] on [undefined].  No year
    change, edit or Apply can make it throw. *)
Theorem line_chart_throws_only_without_result q es s e :
  run q es = Some s →
  (step s e = None ↔ ∃ q', e = Fetch q' ∧ Feed.no_result q') ∧
  (mount q = None ↔ Feed.no_result q) ∧
  ¬ Feed.no_result (query s).
Proof.
  intros Hrun. destruct (run_invariant q es s Hrun) as [Hs _].
  destruct (stable_inv s Hs) as (Hv & _).
  assert (∀ h, settle h = None ↔ view h = VThrow) as Hset.
  { intros h. split.
    - intros Hn. destruct (view h) eqn:Ev; [| |done]; exfalso;
        (destruct (settle_total h) as (s' & E & _); [by rewrite Ev | congruence]).
    - intros E. unfold settle, round. by rewrite E. }
  split; [|split].
  - unfold step. rewrite Hset, view_throw_iff. split.
    + intros Hn. destruct e as [q'| | |].
      * by exists q'.
      * exfalso. apply Hv, view_throw_iff.
        unfold handle in Hn. by destruct (chart s).
      * exfalso. apply Hv, view_throw_iff.
        unfold handle in Hn. by destruct (chart s).
      * exfalso. apply Hv, view_throw_iff.
        unfold handle in Hn. by destruct (chart s).
    + by intros (q' & -> & Hn).
  - unfold mount. by rewrite Hset, view_throw_iff.
  - by rewrite <- view_throw_iff.
Qed.

Lemma line_chart_throws_only_without_result_witness :
  ∃ s, run (Examples.loaded [Examples.Medals.usa21]) [] = Some s ∧
    (step s (Fetch {| data := None; isLoading := false; isError := false |}) = None ↔
     ∃ q', Fetch {| data := None; isLoading := false; isError := false |} = Fetch q' ∧
           Feed.no_result q') ∧
    (mount (Examples.loaded [Examples.Medals.usa21]) = None ↔
     Feed.no_result (Examples.loaded [Examples.Medals.usa21])) ∧
    ¬ Feed.no_result (query s).
Proof.
  eexists. split; [vm_compute; reflexivity|].
  apply (line_chart_throws_only_without_result
           (Examples.loaded [Examples.Medals.usa21]) []).
  vm_compute. reflexivity.
Defined.
End Sessions.

(* ===================================================================== *)
(** * The index of a feed, entry by entry *)
(* ===================================================================== *)

Section IndexLookup.
Import D3.
Context {V K1 K2 : Type} `{EqDecision K1} `{EqDecision K2}.
Context (key1 : V → K1) (key2 : V → K2).
Implicit Types (values : list V) (idx : list (K1 * list (K2 * V))).







End IndexLookup.

(* ===================================================================== *)
(** * The stream graph: from the feed to the drawing *)
(* ===================================================================== *)

Section StreamDrawing.
Import GDPStreamGraph.
















Lemma indexOf_NoDup {A : Type} `{EqDecision A} (l : list A) i x :
  NoDup l → l !! i = Some x → Js.indexOf x l = Some i.
Proof.
  intros Hnd Hi. destruct (Js.indexOf x l) as [j|] eqn:E.
  - f_equal. apply indexOf_lookup in E. by apply (NoDup_lookup l j i x).
  - apply indexOf_None in E. destruct E. by apply list_elem_of_lookup_2 in Hi.
Qed.

Lemma palette_by_position palette (cats : list string) :
  NoDup cats → length cats ≤ length palette →
  map (Spec.palette_colour palette cats) cats = Some <$> take (length cats) palette.
Proof.
  intros Hnd Hlen. apply list_eq. intros i.
  change (map ?f ?l) with (f <$> l). rewrite !list_lookup_fmap.
  destruct (cats !! i) as [c|] eqn:E; simpl.
  - pose proof (lookup_lt_Some _ _ _ E) as Hi.
    unfold Spec.palette_colour. rewrite (indexOf_NoDup cats i c Hnd E). simpl.
    rewrite Nat.mod_small by lia. rewrite lookup_take_lt by done.
    destruct (lookup_lt_is_Some_2 palette i) as [p Hp]; [lia|]. by rewrite Hp.
  - apply lookup_ge_None in E. rewrite lookup_take_ge; done.
Qed.

(** X14.  In the stream graph, ten or fewer distinct countries never
    share a colour: the legend swatches are the first colours of the
    Tableau palette in legend order, and every area is filled with the
    colour of its legend entry.  The default view, with no selection, is
    always such a case. *)
Theorem up_to_ten_stream_countries_have_distinct_colours gdp sel svg :
  render gdp sel = Some svg → NoDup sel → length sel ≤ 10 →
  length (legend svg) ≤ 10 ∧
  map swatch (legend svg) = Some <$> take (length (legend svg)) D3.schemeTableau10 ∧
  map fill (areas svg) = map swatch (legend svg) ∧
  NoDup (map swatch (legend svg)).
Proof.
  intros Hr Hnd Hlen.
  destruct (render_Some _ _ _ Hr) as (idx & Hidx & _ & Ha & Hl). cbv zeta in Ha, Hl.
  set (countries := countriesOf (map parse gdp) sel) in *.
  assert (NoDup countries ∧ length countries ≤ 10) as [Hc Hcl].
  { unfold countries, countriesOf. destruct sel as [|c sel]; simpl; [|done].
    split.
    - eapply sublist_NoDup; [|apply sublist_take].
      rewrite Set_from_first_seen. apply first_seen_NoDup.
    - rewrite length_take. lia. }
  assert (length (legend svg) = length countries) as El.
  { by rewrite Hl, length_imap. }
  assert (map swatch (legend svg)
          = map (Spec.palette_colour D3.schemeTableau10 countries) countries) as Es.
  { rewrite Hl, (first_seen_id countries Hc).
    apply list_eq. intros i. change (map ?f ?l) with (f <$> l).
    rewrite !list_lookup_fmap, list_lookup_imap. by destruct (countries !! i). }
  assert (map fill (areas svg)
          = map (Spec.palette_colour D3.schemeTableau10 countries) countries) as Ef.
  { rewrite Ha, (first_seen_id countries Hc), map_map. simpl.
    rewrite <- (stack_keys countries value idx) at 3. by rewrite map_map. }
  rewrite El, Ef, Es. rewrite palette_by_position by done.
  split; [done|]. split; [done|]. split; [done|].
  apply NoDup_fmap_2; [apply _|].
  eapply sublist_NoDup; [|apply sublist_take].
  apply (bool_decide_unpack _). vm_compute. exact I.
Qed.

Lemma up_to_ten_stream_countries_have_distinct_colours_witness :
  ∃ svg, render Examples.GDP.eleven [] = Some svg ∧ NoDup (@nil string) ∧
    length (@nil string) ≤ 10 ∧
    length (legend svg) ≤ 10 ∧
    map swatch (legend svg) = Some <$> take (length (legend svg)) D3.schemeTableau10 ∧
    map fill (areas svg) = map swatch (legend svg) ∧
    NoDup (map swatch (legend svg)).
Proof.
  eexists. split; [vm_compute; reflexivity|]. split; [constructor|].
  split; [simpl; lia|].
  apply (up_to_ten_stream_countries_have_distinct_colours Examples.GDP.eleven []);
    [vm_compute; reflexivity | constructor | simpl; lia].
Defined.
End StreamDrawing.

(* ===================================================================== *)
(** * The stream graph: sessions *)
(* ===================================================================== *)

Section StreamSessions.
Import GDPStreamGraph.

(** A render with the dependencies unchanged only commits the view. *)
Lemma stream_round_commit h :
  view h ≠ VThrow → deps h = Some (now h) →
  round h = Some {| query := query h; selectedCountries := selectedCountries h;
                    deps := deps h; svgRef := commit (view h) (svgRef h);
                    heap := heap h; renders := renders h |}.
Proof.
  intros Hv Hd. unfold round, effect. rewrite Hd, changed_same.
  by destruct (view h).
Qed.


(** X15.  The stream graph, too, comes back blank from a message: a
    result with a flag set takes the node off the page, and when the next
    result has no flag and carries the same data object the node is new
    and empty, and the effect, whose dependencies did not change, does not
    draw. *)
Theorem stream_graph_is_blank_after_a_message q es s qf qb :
  run q es = Some s → svgRef s ≠ NotMounted →
  isLoading qf = true ∨ isError qf = true → data qf = data (query s) →
  isLoading qb = false → isError qb = false → data qb = data (query s) →
  ∃ s1 s2, step s (Fetch qf) = Some s1 ∧ svgRef s1 = NotMounted ∧
    step s1 (Fetch qb) = Some s2 ∧ svgRef s2 = Mounted None ∧
    selectedCountries s2 = selectedCountries s ∧ renders s2 = renders s.
Proof.
  intros Hrun Hc Hf Hdf HL HE Hdb.
  destruct (stream_run_invariant q es s Hrun) as [Hs _].
  destruct (stream_mounted_view s Hs Hc) as (_ & _ & d & Hd).
  destruct (stream_stable_inv s Hs) as (_ & Hdeps & _).
  set (h1 := handle s (Fetch qf)).
  assert (view h1 = VMessage (if isLoading qf then "Loading..."
                              else "Error loading data.")) as Ev1.
  { by apply (stream_message_view h1). }
  assert (deps h1 = Some (now h1)) as Hd1.
  { unfold now. simpl. by rewrite Hdf. }
  pose proof (stream_round_commit h1) as R1. rewrite Ev1 in R1.
  specialize (R1 (ltac:(done)) Hd1). simpl in R1.
  eexists. eexists. split; [exact R1|]. split; [done|].
  unfold step.
  set (h2 := handle _ (Fetch qb)).
  assert (view h2 = VControls ("All" :: Js.Set_from (map Row.Country (items d)))) as Ev2.
  { unfold view. simpl. by rewrite HL, HE, Hdb, Hd. }
  assert (deps h2 = Some (now h2)) as Hd2.
  { unfold now. simpl. by rewrite Hdb. }
  pose proof (stream_round_commit h2) as R2. rewrite Ev2 in R2.
  specialize (R2 (ltac:(done)) Hd2). simpl in R2.
  split; [exact R2|]. done.
Qed.

Lemma stream_graph_is_blank_after_a_message_witness :
  ∃ s, run (Examples.loaded Examples.GDP.growing) [] = Some s ∧
    svgRef s ≠ NotMounted ∧
    (isLoading (Examples.failed_with Examples.GDP.growing) = true ∨
     isError (Examples.failed_with Examples.GDP.growing) = true) ∧
    data (Examples.failed_with Examples.GDP.growing) = data (query s) ∧
    isLoading (Examples.loaded Examples.GDP.growing) = false ∧
    isError (Examples.loaded Examples.GDP.growing) = false ∧
    data (Examples.loaded Examples.GDP.growing) = data (query s) ∧
    ∃ s1 s2, step s (Fetch (Examples.failed_with Examples.GDP.growing)) = Some s1 ∧
      svgRef s1 = NotMounted ∧
      step s1 (Fetch (Examples.loaded Examples.GDP.growing)) = Some s2 ∧
      svgRef s2 = Mounted None ∧
      selectedCountries s2 = selectedCountries s ∧ renders s2 = renders s.
Proof.
  eexists. split; [vm_compute; reflexivity|]. split; [done|].
  split; [by right|]. split; [reflexivity|]. split; [reflexivity|].
  split; [reflexivity|]. split; [reflexivity|].
  apply (stream_graph_is_blank_after_a_message
           (Examples.loaded Examples.GDP.growing) []);
    [vm_compute; reflexivity | done | by right | reflexivity..].
Defined.




(** X17.  After any session neither component has an effect pending:
    one more render returns the state it was given, so nothing is
    transformed or drawn again and the render loop has come to rest. *)
Theorem no_effect_is_pending_at_rest lq les ls gq ges gs :
  MedalLineChart.run lq les = Some ls → run gq ges = Some gs →
  MedalLineChart.round ls = Some ls ∧ MedalLineChart.settle ls = Some ls ∧
  round gs = Some gs.
Proof.
  intros Hl Hg. destruct (run_invariant lq les ls Hl) as [Hs _].
  destruct (stream_run_invariant gq ges gs Hg) as [Hs' _].
  split; [done|]. split; [by apply settle_fixed | done].
Qed.

Lemma no_effect_is_pending_at_rest_witness :
  ∃ ls gs,
    MedalLineChart.run (Examples.loaded [Examples.Medals.usa21; Examples.Medals.chn16])
      Examples.Medals.empty_result_session = Some ls ∧
    run (Examples.loaded Examples.GDP.two_by_two) [Change ["A"]] = Some gs ∧
    MedalLineChart.round ls = Some ls ∧ MedalLineChart.settle ls = Some ls ∧
    round gs = Some gs.
Proof.
  eexists. eexists. split; [vm_compute; reflexivity|].
  split; [vm_compute; reflexivity|].
  apply (no_effect_is_pending_at_rest
           (Examples.loaded [Examples.Medals.usa21; Examples.Medals.chn16])
           Examples.Medals.empty_result_session _
           (Examples.loaded Examples.GDP.two_by_two) [Change ["A"]]);
    vm_compute; reflexivity.
Defined.
End StreamSessions.

(* ===================================================================== *)
(** * The line chart: a refetch *)
(* ===================================================================== *)

Section Refetch.
Import MedalLineChart.

Ltac effects :=
  unfold effect1, effect2, effect3, set_chart, now2, now3, dataRef; simpl;
  repeat match goal with
         | |- context [changed ?a ?b] => destruct (changed a b) eqn:?; simpl
         | |- context [match data ?q with _ => _ end] => destruct (data q) eqn:?; simpl
         | |- context [match truthy ?y with _ => _ end] => destruct (truthy y) eqn:?; simpl
         end.

Lemma changed_true {D : Type} `{EqDecision D} (seen : option D) (now : D) :
  seen ≠ Some now → changed seen now = true.
Proof. intros H. by apply bool_decide_eq_true. Qed.

(** The first effect, when it runs on data, selects the latest year. *)
Lemma round_year_reset s s' d :
  round s = Some s' → deps1 s ≠ Some (dataRef s) → data (query s) = Some d →
  selectedYear s' = latestYear (items d).
Proof.
  intros Hr H1 Hd. apply round_inv in Hr as [_ ->].
  apply changed_true in H1.
  unfold effect3, effect2, effect1, set_chart. simpl. rewrite H1, Hd.
  repeat match goal with
         | |- context [changed ?a ?b] => destruct (changed a b); simpl
         | |- context [match truthy ?y with _ => _ end] => destruct (truthy y); simpl
         end; done.
Qed.

(** The second effect, when it runs on data and a truthy year, stores the
    transformed rows and the keys in new arrays. *)
Lemma round_transform s s' d y :
  round s = Some s' → deps2 s ≠ Some (now2 s) → data (query s) = Some d →
  truthy (selectedYear s) = Some y →
  filteredData s'
    = {| ref := heap s;
         items := transform (items d) y (items (appliedCountries s)) |} ∧
  keys s' = {| ref := S (heap s); items := uniqueKeys |} ∧
  heap s' = S (S (heap s)) ∧ transforms s' = S (transforms s).
Proof.
  intros Hr H2 Hd Ht. apply round_inv in Hr as [_ ->].
  apply changed_true in H2.
  unfold effect3, effect2, effect1, set_chart. simpl. rewrite H2, Hd, Ht.
  repeat match goal with
         | |- context [changed ?a ?b] => destruct (changed a b); simpl
         end; done.
Qed.

(** The third effect, when it runs on rows and keys, draws them. *)
Lemma round_draw s s' :
  round s = Some s' → deps3 s ≠ Some (now3 s) →
  items (filteredData s) ≠ [] → items (keys s) ≠ [] →
  chart s'
    = draw (render (items (filteredData s)) (items (keys s)))
           (commit (view s) (chart s)) ∧
  renders s' = S (renders s).
Proof.
  intros Hr H3 Hf Hk. apply round_inv in Hr as [_ ->].
  apply changed_true in H3.
  unfold effect3. simpl. rewrite H3.
  destruct (items (filteredData s)) as [|p fd]; [done|].
  destruct (items (keys s)) as [|k ks]; [done|]. simpl.
  effects; done.
Qed.

Lemma draw_on_controls s svg c :
  isLoading (query s) = false → isError (query s) = false →
  is_Some (data (query s)) →
  draw svg (commit (view s) c) = Mounted (Some svg) ∧
  commit (view s) (Mounted (Some svg)) = Mounted (Some svg).
Proof.
  intros HL HE [d Hd]. unfold view. rewrite HL, HE, Hd. by destruct c.
Qed.

(** X18.  A fetch that brings a new data object selects the latest year
    of the new feed again, whatever year the user had chosen, but keeps
    the applied countries: the rows in state are those of the latest year
    for the applied countries, and when there are any and no flag is set
    they are what the chart shows. *)
Theorem refetch_resets_the_year_and_keeps_the_filter q es s q' d' :
  run q es = Some s → data q' = Some d' → dataRef s ≠ Some (ref d') →
  ∃ s', step s (Fetch q') = Some s' ∧
    selectedYear s' = latestYear (items d') ∧
    appliedCountries s' = appliedCountries s ∧
    selectedCountries s' = selectedCountries s ∧
    ∀ y, truthy (latestYear (items d')) = Some y →
      items (filteredData s')
        = transform (items d') y (items (appliedCountries s)) ∧
      (isLoading q' = false → isError q' = false →
       transform (items d') y (items (appliedCountries s)) ≠ [] →
       chart s'
         = Mounted (Some (render (transform (items d') y
                                    (items (appliedCountries s))) uniqueKeys))).
Proof.
  intros Hrun Hd' Href.
  destruct (run_invariant q es s Hrun) as [Hs _].
  pose proof (run_fresh_data q es s Hrun) as Hfd.
  destruct (stable_inv s Hs) as (_ & H1 & H2 & H3 & _).
  set (h := handle s (Fetch q')).
  assert (query h = q') as Qh by done.
  assert (dataRef h = Some (ref d')) as Eh by (unfold dataRef; by rewrite Qh, Hd').
  assert (view h ≠ VThrow) as Hv.
  { intros E. apply view_throw_iff in E as (_ & _ & E). rewrite Qh in E. congruence. }
  destruct (settle_total h Hv) as (s3 & Hset & Q3 & S3 & A3 & _).
  exists s3. split; [exact Hset|].
  unfold settle in Hset.
  destruct (round h) as [s1|] eqn:R1; [simpl in Hset|done].
  destruct (round s1) as [s2|] eqn:R2; [simpl in Hset|done].
  rename Hset into R3.
  pose proof (round_frame _ _ R1) as (Q1 & _ & A1 & D11 & D12 & D13 & _).
  pose proof (round_frame _ _ R2) as (Q2 & _ & A2 & D21 & D22 & D23 & _).
  assert (dataRef s1 = dataRef h) as E1 by (unfold dataRef; by rewrite Q1).
  assert (dataRef s2 = dataRef s1) as E2 by (unfold dataRef; by rewrite Q2).
  assert (selectedYear s1 = latestYear (items d')) as Y1.
  { apply (round_year_reset h s1 d' R1); [|by rewrite Qh].
    change (deps1 h) with (deps1 s). rewrite H1, Eh. congruence. }
  assert (selectedYear s2 = selectedYear s1) as Y2.
  { apply (round_year _ _ R2). by rewrite D11, E1. }
  assert (selectedYear s3 = selectedYear s2) as Y3.
  { apply (round_year _ _ R3). by rewrite D21, E2. }
  assert (deps2 s2 = Some (now2 s2)) as N2.
  { rewrite D22. unfold now2. by rewrite E2, Y2, A2. }
  pose proof (round_data _ _ R3 N2) as (F3 & K3 & _ & _).
  split; [congruence|]. split; [done|]. split; [done|].
  intros y Ht.
  set (fd := transform (items d') y (items (appliedCountries s))).
  assert (data (query s1) = Some d') as Hd1 by (by rewrite Q1, Qh).
  assert (data (query s2) = Some d') as Hd2 by (by rewrite Q2, Hd1).
  assert (Feed.fresh_data s1) as [Hf1 Hk1].
  { apply (round_fresh_data h s1 R1). exact Hfd. }
  assert (deps2 h ≠ Some (now2 h)) as C2h.
  { change (deps2 h) with (deps2 s). rewrite H2. unfold now2. rewrite Eh.
    intros [= E]. by rewrite E in Href. }
  destruct (decide (latestYear (items d') = selectedYear s)) as [Eq|Ne].
  - (* the year was the latest already: the first round transforms *)
    assert (truthy (selectedYear h) = Some y) as Hth.
    { change (selectedYear h) with (selectedYear s). by rewrite <- Eq. }
    destruct (round_transform h s1 d' y R1 C2h) as (F1 & K1 & _ & _);
      [by rewrite Qh | done |].
    assert (deps2 s1 = Some (now2 s1)) as N1.
    { rewrite D12. unfold now2. rewrite E1, Y1, A1, Eq. done. }
    pose proof (round_data _ _ R2 N1) as (F2 & K2 & _ & _).
    assert (items (filteredData s3) = fd) as Hfd3.
    { rewrite F3, F2, F1. done. }
    split; [done|]. intros HL HE Hne.
    destruct (round_draw s1 s2 R2) as [C2 _].
    + rewrite D13. unfold now3. rewrite F1, K1. simpl.
      destruct Hfd as [Hfd _]. change (filteredData h) with (filteredData s).
      change (heap h) with (heap s). intros [= E _]. lia.
    + by rewrite F1.
    + by rewrite K1.
    + destruct (round_chart s2 s3 R3) as [C3 _].
      { rewrite D23. unfold now3. by rewrite F2, K2. }
      assert (chart s2 = Mounted (Some (render fd uniqueKeys))) as C2'.
      { rewrite C2, F1, K1. simpl.
        apply draw_on_controls; [by rewrite Q1, Qh | by rewrite Q1, Qh |].
        by rewrite Hd1. }
      rewrite C3, C2'.
      apply (draw_on_controls s2 _ NotMounted);
        [by rewrite Q2, Q1, Qh | by rewrite Q2, Q1, Qh |].
      by rewrite Hd2.
  - (* the year changes: the second round transforms *)
    destruct (round_transform s1 s2 d' y R2) as (F2 & K2 & _ & _).
    + rewrite D12. unfold now2. rewrite Y1. intros [= _ E]. congruence.
    + done.
    + by rewrite Y1.
    + rewrite A1 in F2. change (appliedCountries h) with (appliedCountries s) in F2.
      assert (items (filteredData s3) = fd) as Hfd3 by (by rewrite F3, F2).
      split; [done|]. intros HL HE Hne.
      destruct (round_draw s2 s3 R3) as [C3 _].
      * rewrite D23. unfold now3. rewrite F2, K2. simpl. intros [= E _]. lia.
      * by rewrite F2.
      * by rewrite K2.
      * rewrite C3, F2, K2. simpl.
        apply draw_on_controls; [by rewrite Q2, Q1, Qh | by rewrite Q2, Q1, Qh |].
        by rewrite Hd2.
Qed.

Lemma refetch_resets_the_year_and_keeps_the_filter_witness :
  let rows := [Examples.Medals.usa21; Examples.Medals.chn21; Examples.Medals.chn16] in
  let q' := {| data := Some {| ref := 1; items := Examples.Medals.usa08 :: rows |};
               isLoading := false; isError := false |} in
  ∃ s, run (Examples.loaded rows) [ChangeYear 2016; EditCountries ["CHN"]; Apply]
       = Some s ∧
    selectedYear s = YNum 2016 ∧ items (appliedCountries s) = ["CHN"] ∧
    data q' = Some {| ref := 1; items := Examples.Medals.usa08 :: rows |} ∧
    dataRef s ≠ Some 1 ∧
    ∃ s', step s (Fetch q') = Some s' ∧
      selectedYear s' = latestYear (Examples.Medals.usa08 :: rows) ∧
      appliedCountries s' = appliedCountries s ∧
      selectedCountries s' = selectedCountries s ∧
      ∀ y, truthy (latestYear (Examples.Medals.usa08 :: rows)) = Some y →
        items (filteredData s')
          = transform (Examples.Medals.usa08 :: rows) y (items (appliedCountries s)) ∧
        (isLoading q' = false → isError q' = false →
         transform (Examples.Medals.usa08 :: rows) y (items (appliedCountries s)) ≠ [] →
         chart s'
           = Mounted (Some (render (transform (Examples.Medals.usa08 :: rows) y
                                      (items (appliedCountries s))) uniqueKeys))).
Proof.
  eexists. split; [vm_compute; reflexivity|]. split; [reflexivity|].
  split; [reflexivity|]. split; [reflexivity|]. split; [done|].
  apply (refetch_resets_the_year_and_keeps_the_filter
           (Examples.loaded [Examples.Medals.usa21; Examples.Medals.chn21;
                             Examples.Medals.chn16])
           [ChangeYear 2016; EditCountries ["CHN"]; Apply] _ _
           {| ref := 1;
              items := [Examples.Medals.usa08; Examples.Medals.usa21;
                        Examples.Medals.chn21; Examples.Medals.chn16] |});
    [vm_compute; reflexivity | reflexivity | done].
Defined.
End Refetch.

(* ===================================================================== *)
(** * Where the marks are put *)
(* ===================================================================== *)

Section Positions.
Import MedalLineChart.

Lemma extent_from (values : list Z) : ∀ lo0 hi0 lo hi,
  fold_left (λ (acc : option (Z * Z)) value,
               match acc with
               | None => Some (value, value)
               | Some (min, max) =>
                   Some (if (value <? min)%Z then value else min,
                         if (max <? value)%Z then value else max)
               end)
            values (Some (lo0, hi0)) = Some (lo, hi) →
  (lo ≤ lo0)%Z ∧ (hi0 ≤ hi)%Z ∧ (lo = lo0 ∨ lo ∈ values) ∧ (hi = hi0 ∨ hi ∈ values) ∧
  ∀ v, v ∈ values → (lo ≤ v ≤ hi)%Z.
Proof.
  induction values as [|x xs IH]; intros lo0 hi0 lo hi; simpl.
  - intros [= <- <-]. split; [lia|]. split; [lia|]. split; [by left|].
    split; [by left|]. intros v Hv. by apply elem_of_nil in Hv.
  - intros Hf. apply IH in Hf as (H1 & H2 & H3 & H4 & H5).
    split; [destruct (x <? lo0)%Z eqn:E; lia|].
    split; [destruct (hi0 <? x)%Z eqn:E; lia|].
    split; [|split].
    + destruct H3 as [->|H3]; [|by right; right].
      destruct (x <? lo0)%Z; [right; left | by left].
    + destruct H4 as [->|H4]; [|by right; right].
      destruct (hi0 <? x)%Z; [right; left | by left].
    + intros v Hv. apply elem_of_cons in Hv as [->|Hv]; [|by apply H5].
      destruct (x <? lo0)%Z eqn:E1, (hi0 <? x)%Z eqn:E2; lia.
Qed.

Lemma extent_spec (values : list Z) :
  match Scale.extent values with
  | None => values = []
  | Some (lo, hi) =>
      lo ∈ values ∧ hi ∈ values ∧ ∀ v, v ∈ values → (lo ≤ v ≤ hi)%Z
  end.
Proof.
  unfold Scale.extent. destruct values as [|x xs]; [done|]. simpl.
  destruct (fold_left _ xs (Some (x, x))) as [[lo hi]|] eqn:E.
  - apply extent_from in E as (H1 & H2 & H3 & H4 & H5).
    split; [|split].
    + destruct H3 as [->|?]; [left | by right].
    + destruct H4 as [->|?]; [left | by right].
    + intros v Hv. apply elem_of_cons in Hv as [->|Hv]; [lia | by apply H5].
  - exfalso. revert E. generalize (x, x). clear.
    induction xs as [|y ys IH]; intros [a b]; simpl; [done | apply IH].
Qed.

Lemma Qlt_bool_ge a b : (b <= a)%Q → D3.Qlt_bool a b = false.
Proof.
  intros H. destruct (D3.Qlt_bool a b) eqn:E; [|done].
  apply Qlt_bool_true in E. lra.
Qed.

Lemma Qlt_bool_lt a b : (a < b)%Q → D3.Qlt_bool a b = true.
Proof.
  intros H. destruct (D3.Qlt_bool a b) eqn:E; [done|].
  apply Qlt_bool_false in E. lra.
Qed.

(** The parameter of a value between the ends of a domain. *)
Lemma normalize_spec (a b x : Q) :
  (a <= x <= b)%Q →
  (0 <= Scale.normalize a b x <= 1)%Q ∧
  (a == b → Scale.normalize a b x == 1 # 2)%Q ∧
  (a < b → Scale.normalize a b x == (x - a) / (b - a))%Q.
Proof.
  intros [H1 H2]. unfold Scale.normalize.
  destruct (Qeq_bool (b - a) 0) eqn:E.
  - apply Qeq_bool_eq in E. split; [lra|]. split; [done|]. intros. lra.
  - apply Qeq_bool_neq in E. assert (0 < b - a)%Q as Hpos by lra.
    split; [|split; [intros; lra | done]]. split.
    + apply Qle_shift_div_l; [done | lra].
    + apply Qle_shift_div_r; [done | lra].
Qed.



Lemma normalize_ends (a b : Q) :
  (a < b)%Q → (Scale.normalize a b a == 0 ∧ Scale.normalize a b b == 1)%Q.
Proof.
  intros Hab. unfold Scale.normalize.
  destruct (Qeq_bool (b - a) 0) eqn:E.
  - apply Qeq_bool_eq in E. lra.
  - split; field; lra.
Qed.

Lemma inj_le (x y : Z) : (x ≤ y)%Z → (inject_Z x <= inject_Z y)%Q.
Proof. by rewrite <- Zle_Qle. Qed.

Lemma inj_pred (n : Z) : (inject_Z (n - 1) == inject_Z n - 1)%Q.
Proof.
  unfold Z.sub. rewrite inject_Z_plus, inject_Z_opp. change (inject_Z 1) with 1%Q.
  ring.
Qed.

Lemma inj_lt (x y : Z) : (x < y)%Z → (inject_Z x < inject_Z y)%Q.
Proof. by rewrite <- Zlt_Qlt. Qed.

Lemma x_value fd key lo hi v :
  Scale.extent (omap (λ d, Point.get d key) fd) = Some (lo, hi) → (lo ≤ hi)%Z →
  Geometry.x fd key v
  = Some (10 * (1 - Scale.normalize (inject_Z lo) (inject_Z hi) (inject_Z v))
          + (960 - 10) * Scale.normalize (inject_Z lo) (inject_Z hi) (inject_Z v))%Q.
Proof.
  intros E Hle. unfold Geometry.x. rewrite E. simpl.
  unfold Scale.scaleLinear, Scale.bimap.
  rewrite Qlt_bool_ge; [done|]. by apply inj_le.
Qed.

Lemma x_spec fd key p v :
  p ∈ fd → Point.get p key = Some v →
  ∃ lo hi xv,
    Scale.extent (omap (λ d, Point.get d key) fd) = Some (lo, hi) ∧
    (∃ q, q ∈ fd ∧ Point.get q key = Some lo) ∧
    (∃ q, q ∈ fd ∧ Point.get q key = Some hi) ∧
    (∀ q w, q ∈ fd → Point.get q key = Some w → (lo ≤ w ≤ hi)%Z) ∧
    Geometry.x fd key v = Some xv ∧
    (10 <= xv <= 950)%Q ∧
    (lo = hi → xv == 480)%Q ∧
    ((lo < hi)%Z →
     (xv == 10 + 940 * ((inject_Z v - inject_Z lo) / (inject_Z hi - inject_Z lo)))%Q ∧
     (v = lo → xv == 10)%Q ∧ (v = hi → xv == 950)%Q).
Proof.
  intros Hp Hv.
  assert (v ∈ omap (λ d, Point.get d key) fd) as Hin.
  { apply list_elem_of_omap. by exists p. }
  pose proof (extent_spec (omap (λ d, Point.get d key) fd)) as He.
  destruct (Scale.extent _) as [[lo hi]|] eqn:E;
    [|rewrite He in Hin; by apply elem_of_nil in Hin].
  destruct He as (Hlo & Hhi & Hall).
  destruct (Hall v Hin) as [Hlv Hvh].
  exists lo, hi. eexists. split; [done|].
  split. { apply list_elem_of_omap in Hlo as (q & ? & ?). by exists q. }
  split. { apply list_elem_of_omap in Hhi as (q & ? & ?). by exists q. }
  split. { intros q w Hq Hw. apply Hall, list_elem_of_omap. by exists q. }
  split; [apply (x_value fd key lo hi v E); lia|].
  assert (inject_Z lo <= inject_Z v <= inject_Z hi)%Q as Hb.
  { split; by apply inj_le. }
  destruct (normalize_spec _ _ _ Hb) as ([H0 H1] & Heq & Hlt).
  set (t := Scale.normalize (inject_Z lo) (inject_Z hi) (inject_Z v)) in *.
  split; [lra|]. split.
  - intros ->. rewrite Heq by reflexivity. reflexivity.
  - intros Hlh. pose proof (inj_lt _ _ Hlh) as Hlh'. specialize (Hlt Hlh').
    split; [rewrite Hlt; ring|]. split.
    + intros ->. destruct (normalize_ends _ _ Hlh') as [E0 _].
      fold t in E0. rewrite E0. reflexivity.
    + intros ->. destruct (normalize_ends _ _ Hlh') as [_ E1].
      fold t in E1. rewrite E1. reflexivity.
Qed.


Lemma scalePoint_value (keys : list string) (r0 r1 : Q) i key :
  NoDup keys → keys !! i = Some key → (r0 <= r1)%Q →
  let m := inject_Z (Z.max 1 (Z.of_nat (length keys) - 1)) in
  let step := ((r1 - r0) / m)%Q in
  Scale.scalePoint keys (r0, r1) key
  = Some ((r0 + (r1 - r0 - step * inject_Z (Z.of_nat (length keys) - 1)) * (1 # 2))
          + step * inject_Z (Z.of_nat i))%Q.
Proof.
  intros Hnd Hi Hr m step. unfold Scale.scalePoint.
  rewrite Set_from_first_seen, (first_seen_id keys Hnd).
  rewrite (Qlt_bool_ge r1 r0 Hr). rewrite (indexOf_NoDup keys i key Hnd Hi). simpl.
  pose proof (lookup_lt_Some _ _ _ Hi) as Hlt.
  rewrite length_map, length_seq, Nat.mod_small by done.
  change (map ?f ?l) with (f <$> l). rewrite list_lookup_fmap.
  rewrite lookup_seq_lt by done. done.
Qed.

Lemma height_value keys :
  (Geometry.height keys == 120 * inject_Z (Z.of_nat (length keys)))%Q.
Proof.
  unfold Geometry.height. rewrite inject_Z_mult. ring.
Qed.

Lemma y_spec keys i key :
  NoDup keys → keys !! i = Some key →
  ∃ yv, Geometry.y keys key = Some yv ∧
    (length keys = 1 → (yv == 60)%Q) ∧
    (2 ≤ length keys →
     (yv == 20 + inject_Z (Z.of_nat i)
                 * ((Geometry.height keys - 40)
                    / inject_Z (Z.of_nat (length keys) - 1)))%Q) ∧
    (20 <= yv <= Geometry.height keys - 20)%Q.
Proof.
  intros Hnd Hi. pose proof (lookup_lt_Some _ _ _ Hi) as Hlt.
  pose proof (height_value keys) as Hh.
  assert (1 <= inject_Z (Z.of_nat (length keys)))%Q as Hn.
  { apply (inj_le 1). lia. }
  unfold Geometry.y. eexists. split.
  { apply scalePoint_value; [done..|]. unfold Geometry.marginTop, Geometry.marginBottom.
    lra. }
  unfold Geometry.marginTop, Geometry.marginBottom.
  set (h := Geometry.height keys) in *.
  destruct (decide (length keys = 1)) as [E1|Hne].
  - assert (i = 0) as -> by lia. rewrite E1.
    rewrite E1 in Hh. change (inject_Z (Z.of_nat 1)) with 1%Q in Hh.
    change (inject_Z (1 `max` (Z.of_nat 1 - 1))) with 1%Q.
    change (inject_Z (Z.of_nat 1 - 1)) with 0%Q.
    change (inject_Z (Z.of_nat 0)) with 0%Q.
    assert ((h - 20 - 20) / 1 == h - 40)%Q as Hs by (field).
    split; [intros _; rewrite Hs; lra|]. split; [intros; lia|].
    rewrite Hs. lra.
  - assert (2 ≤ length keys) as H2 by lia.
    rewrite Z.max_r by lia.
    set (m := inject_Z (Z.of_nat (length keys) - 1)).
    assert (m == inject_Z (Z.of_nat (length keys)) - 1)%Q as Hm.
    { apply inj_pred. }
    assert (1 <= m)%Q as Hm1.
    { apply (inj_le 1). lia. }
    set (j := inject_Z (Z.of_nat i)).
    assert (0 <= j <= m)%Q as Hj.
    { split; [apply (inj_le 0) | apply inj_le]; lia. }
    assert ((h - 20 - 20) / m * m == h - 40)%Q as Hs by (field; lra).
    set (step := ((h - 20 - 20) / m)%Q) in *.
    assert (0 <= step)%Q as Hstep.
    { unfold step. apply Qle_shift_div_l; lra. }
    assert (step * j <= step * m)%Q as Hbound.
    { rewrite !(Qmult_comm step). apply Qmult_le_compat_r; lra. }
    assert (0 <= step * j)%Q as Hpos by (apply Qmult_le_0_compat; lra).
    split; [lia|]. split.
    + intros _. unfold step. field. lra.
    + lra.
Qed.









(** X20.  The axes of the line chart are spread evenly from the top
    margin to the bottom margin, in the order of the keys: with n keys,
    key i stands at 20 + i (120 n - 40) / (n - 1); a single key stands in
    the middle.  Gold, Silver and Bronze stand at 20, 180 and 340. *)
Theorem axes_are_evenly_spaced keys i key :
  NoDup keys → keys !! i = Some key →
  (∃ yv, Geometry.y keys key = Some yv ∧
     (length keys = 1 → (yv == 60)%Q) ∧
     (2 ≤ length keys →
      (yv == 20 + inject_Z (Z.of_nat i)
                  * ((Geometry.height keys - 40)
                     / inject_Z (Z.of_nat (length keys) - 1)))%Q) ∧
     (20 <= yv <= Geometry.height keys - 20)%Q) ∧
  (∃ yg ys yb, map (Geometry.y uniqueKeys) uniqueKeys = [Some yg; Some ys; Some yb] ∧
     (yg == 20 ∧ ys == 180 ∧ yb == 340)%Q).
Proof.
  intros Hnd Hi. split; [by apply y_spec|].
  eexists. eexists. eexists. split; [vm_compute; reflexivity|].
  split; [reflexivity|]. split; reflexivity.
Qed.

Lemma axes_are_evenly_spaced_witness :
  NoDup ["Gold"; "Silver"] ∧ ["Gold"; "Silver"] !! 1 = Some "Silver" ∧
  (∃ yv, Geometry.y ["Gold"; "Silver"] "Silver" = Some yv ∧
     (length ["Gold"; "Silver"] = 1 → (yv == 60)%Q) ∧
     (2 ≤ length ["Gold"; "Silver"] →
      (yv == 20 + inject_Z (Z.of_nat 1)
                  * ((Geometry.height ["Gold"; "Silver"] - 40)
                     / inject_Z (Z.of_nat (length ["Gold"; "Silver"]) - 1)))%Q) ∧
     (20 <= yv <= Geometry.height ["Gold"; "Silver"] - 20)%Q) ∧
  (∃ yg ys yb, map (Geometry.y uniqueKeys) uniqueKeys = [Some yg; Some ys; Some yb] ∧
     (yg == 20 ∧ ys == 180 ∧ yb == 340)%Q).
Proof.
  split; [apply (bool_decide_unpack _); vm_compute; exact I|].
  split; [reflexivity|].
  apply (axes_are_evenly_spaced ["Gold"; "Silver"] 1 "Silver");
    [apply (bool_decide_unpack _); vm_compute; exact I | reflexivity].
Defined.

(** X21.  The path of every row the line chart draws is one unbroken
    line of three points, one on each of the axes of Gold, Silver and
    Bronze (at heights 20, 180 and 340), each between the left and the
    right margin: no point of such a row is undefined. *)
Theorem path_has_a_point_on_every_axis fd d :
  d ∈ fd →
  ∃ xg xs xb yg ys yb,
    Geometry.line fd uniqueKeys d
      = [Some (Some xg, Some yg); Some (Some xs, Some ys); Some (Some xb, Some yb)] ∧
    (yg == 20 ∧ ys == 180 ∧ yb == 340)%Q ∧
    (10 <= xg <= 950 ∧ 10 <= xs <= 950 ∧ 10 <= xb <= 950)%Q.
Proof.
  intros Hd.
  destruct (x_spec fd "Gold" d (Point.Gold d) Hd eq_refl)
    as (? & ? & xg & _ & _ & _ & _ & Eg & Hg & _).
  destruct (x_spec fd "Silver" d (Point.Silver d) Hd eq_refl)
    as (? & ? & xs & _ & _ & _ & _ & Es & Hs & _).
  destruct (x_spec fd "Bronze" d (Point.Bronze d) Hd eq_refl)
    as (? & ? & xb & _ & _ & _ & _ & Eb & Hb & _).
  exists xg, xs, xb. eexists. eexists. eexists. split.
  - unfold Geometry.line, uniqueKeys.
    cbn [map]. change (Point.get d "Gold") with (Some (Point.Gold d)).
    change (Point.get d "Silver") with (Some (Point.Silver d)).
    change (Point.get d "Bronze") with (Some (Point.Bronze d)).
    cbv iota beta. rewrite Eg, Es, Eb.
    repeat f_equal; vm_compute; reflexivity.
  - split; [|done]. split; [reflexivity|]. split; reflexivity.
Qed.

Lemma path_has_a_point_on_every_axis_witness :
  let fd := transform [Examples.Medals.usa21; Examples.Medals.chn21] 2021 [] in
  let d := Point.mk "USA" 39 41 33 in
  d ∈ fd ∧
  ∃ xg xs xb yg ys yb,
    Geometry.line fd uniqueKeys d
      = [Some (Some xg, Some yg); Some (Some xs, Some ys); Some (Some xb, Some yb)] ∧
    (yg == 20 ∧ ys == 180 ∧ yb == 340)%Q ∧
    (10 <= xg <= 950 ∧ 10 <= xs <= 950 ∧ 10 <= xb <= 950)%Q.
Proof.
  split; [left|].
  apply (path_has_a_point_on_every_axis
           (transform [Examples.Medals.usa21; Examples.Medals.chn21] 2021 [])
           (Point.mk "USA" 39 41 33)).
  left.
Defined.
End Positions.

Section StreamPositions.
Import GDPStreamGraph.


End StreamPositions.
